(** * Google Alerts digest: a shallow embedding of [main.py]

    The program reads alert feeds, resolves the article link hidden in each
    redirect link, downloads and summarises the article, and keeps two
    pieces of state between runs: the set of seen identifiers ([seen.json])
    and the history of summaries ([all_articles.json]).

    Python functions of [main.py] are embedded under their own names.
    Third-party libraries (urllib, feedparser, trafilatura, requests, bs4,
    sumy, hashlib) are not part of the program: what they compute is left
    open in a record [World], whose fields may return a value or raise.
    Every statement below is therefore proved for any behaviour of these
    libraries; a small executable [RefWorld] instantiates them for examples. *)

From Stdlib Require Import ZArith Ascii String List.
From stdpp Require Import base tactics option numbers strings list gmap sets sorting.

Local Open Scope string_scope.

(** ** Python values and control flow *)

Module Py.

(** An exception derived from [Exception], named by its class. *)
Definition exn : Type := string.

(** The result of evaluating a Python expression that may raise. *)
Inductive outcome (A : Type) : Type :=
| Ret (a : A)
| Raise (e : exn).
Arguments Ret {A} a.
Arguments Raise {A} e.

Definition bind {A B : Type} (m : outcome A) (k : A -> outcome B) : outcome B :=
  match m with
  | Ret a => k a
  | Raise e => Raise e
  end.

(** [try: body / except Exception: handler]. *)
Definition try_except {A : Type} (body : outcome A) (handler : exn -> outcome A)
  : outcome A :=
  match body with
  | Ret a => Ret a
  | Raise e => handler e
  end.

Definition returns {A : Type} (m : outcome A) : Prop := exists a, m = Ret a.

(** Truth value of a [str]: the empty string is falsy. *)
Definition truthy (s : string) : bool :=
  match s with
  | EmptyString => false
  | String _ _ => true
  end.

(** [a or b] on strings. *)
Definition or_ (a b : string) : string := if truthy a then a else b.

(** [l[:k]], with Python's reading of a negative bound. *)
Definition slice_to {A : Type} (l : list A) (k : Z) : list A :=
  if (0 <=? k)%Z then take (Z.to_nat k) l
  else take (length l - Z.to_nat (- k)) l.

(** [str.isspace] on the ASCII range: TAB..CR, FS..US and SPACE. Texts are
    byte strings here: the characters beyond ASCII that Python also counts
    as whitespace (U+0085, U+00A0, U+2028 and others) are not recognised, so
    [strip] and [sub_spaces] below are Python's on ASCII text. *)
Definition isspace (c : ascii) : bool :=
  let n := nat_of_ascii c in
  ((9 <=? n)%nat && (n <=? 13)%nat) || ((28 <=? n)%nat && (n <=? 32)%nat).

Fixpoint lstrip_by (p : ascii -> bool) (s : string) : string :=
  match s with
  | EmptyString => EmptyString
  | String c s' => if p c then lstrip_by p s' else s
  end.

Fixpoint rstrip_by (p : ascii -> bool) (s : string) : string :=
  match s with
  | EmptyString => EmptyString
  | String c s' =>
      match rstrip_by p s' with
      | EmptyString => if p c then EmptyString else String c EmptyString
      | r => String c r
      end
  end.

(** [s.strip()] and [s.strip(chars)]. *)
Definition strip_by (p : ascii -> bool) (s : string) : string :=
  rstrip_by p (lstrip_by p s).
Definition strip (s : string) : string := strip_by isspace s.

(** [re.sub(r"\s+", " ", s)]: every run of whitespace becomes one space. *)
Fixpoint sub_spaces_from (in_run : bool) (s : string) : string :=
  match s with
  | EmptyString => EmptyString
  | String c s' =>
      if isspace c
      then (if in_run then sub_spaces_from true s'
            else String " "%char (sub_spaces_from true s'))
      else String c (sub_spaces_from false s')
  end.
Definition sub_spaces (s : string) : string := sub_spaces_from false s.

(** [s.replace(pat, "")] for a non-empty [pat]. *)
Fixpoint remove_all_from (pat : string) (skip : nat) (s : string) : string :=
  match s with
  | EmptyString => EmptyString
  | String c s' =>
      match skip with
      | S n => remove_all_from pat n s'
      | O =>
          if String.prefix pat s
          then remove_all_from pat (String.length pat - 1) s'
          else String c (remove_all_from pat 0 s')
      end
  end.
Definition remove_all (pat s : string) : string := remove_all_from pat 0 s.

Definition LF : string := String (ascii_of_nat 10) EmptyString.

(** [sep.join(parts)]. *)
Fixpoint join (sep : string) (parts : list string) : string :=
  match parts with
  | [] => ""
  | [p] => p
  | p :: rest => p +:+ sep +:+ join sep rest
  end.

End Py.

Export Py.

Global Instance outcome_ret : MRet outcome := fun A a => Ret a.
Global Instance outcome_bind : MBind outcome := fun A B k m => Py.bind m k.

(** ** The libraries the program calls *)

(** [urllib.parse.ParseResult]. *)
Record ParseResult : Type := {
  scheme : string;
  netloc : string;
  path : string;
  params : string;
  query : string;
  fragment : string;
}.

(** [requests.Response], as far as [fetch_text] looks at it. *)
Record Response : Type := {
  status_code : Z;
  text : string;
}.

(** A feed entry as [feedparser] hands it over; a missing key reads as the
    empty string, as [entry.get] with its falsy default does. *)
Record FeedEntry : Type := {
  e_title : string;
  e_link : string;
  e_summary : string;
  e_summary_detail_value : string;
  e_content : list string;
  e_published : string;
  e_updated : string;
}.

Record World : Type := {
  (** [urllib.parse] *)
  urlparse : string -> outcome ParseResult;
  parse_qs : string -> outcome (gmap string (list string));
  unquote : string -> outcome string;
  (** [hashlib.sha1(s.encode("utf-8")).hexdigest()] *)
  sha1_hexdigest : string -> string;
  (** [feedparser.parse(feed_url).entries] *)
  feedparser_parse : string -> outcome (list FeedEntry);
  (** [BeautifulSoup(html, "html.parser")] with script, style and noscript
      removed, then [get_text(separator=" ", strip=True)] *)
  soup_get_text : string -> outcome string;
  (** [trafilatura.fetch_url], [import requests], [requests.get],
      [trafilatura.extract] *)
  trafilatura_fetch_url : string -> outcome (option string);
  import_requests : outcome unit;
  requests_get : string -> Z -> outcome Response;
  trafilatura_extract : string -> string -> outcome (option string);
  (** [Tokenizer(LANGUAGE)], [Stemmer(LANGUAGE)], [get_stop_words(LANGUAGE)] *)
  nlp_setup : outcome unit;
  (** [parser.document.sentences], each as [str(s)] *)
  document_sentences : string -> outcome (list string);
  (** [TextRankSummarizer.rate_sentences]: a score per sentence *)
  rating : Type;
  rating_ltb : rating -> rating -> bool;
  rate_sentences : list string -> outcome (string -> rating);
}.

(** ** The pipeline of [main.py] *)

Section Pipeline.

Context (W : World).

(** *** URL resolver *)

(** [key in qs and qs[key]], then [qs[key][0]]. *)
Definition first_value (qs : gmap string (list string)) (key : string)
  : option string :=
  match qs !! key with
  | Some (v :: _) => Some v
  | _ => None
  end.

(** [for key in keys: if key in qs and qs[key]: return ...]. *)
Fixpoint first_hit (qs : gmap string (list string)) (keys : list string)
  : option string :=
  match keys with
  | [] => None
  | key :: rest =>
      match first_value qs key with
      | Some v => Some v
      | None => first_hit qs rest
      end
  end.

(** The body of the [try] block of [extract_original_url]. *)
Definition extract_original_url_try (url : string) : outcome string :=
  p ← urlparse W url;
  qs ← parse_qs W (query p);
  match first_hit qs ["url"; "q"] with
  | Some v => unquote W v
  | None =>
      frag_qs ← parse_qs W (fragment p);
      match first_value frag_qs "url" with
      | Some v => unquote W v
      | None => Ret url
      end
  end.

Definition extract_original_url (url : string) : outcome string :=
  try_except (extract_original_url_try url) (fun _ => Ret url).

(** *** Content fetcher *)

(** Modelled from the spec: [r.raise_for_status()] belongs to the requests
    library, not to [main.py]. Section 4.2 has an error status fail this
    stage; the range written here is the one the library raises for, 400 to
    599, where the specification says non-2xx. *)
Definition raise_for_status (r : Response) : outcome unit :=
  if ((400 <=? status_code r) && (status_code r <? 600))%Z
  then Raise "HTTPError"
  else Ret tt.

(** Stage 1: [trafilatura.fetch_url] inside its own [try]. *)
Definition fetch_stage1 (url : string) : option string :=
  match trafilatura_fetch_url W url with
  | Ret d => d
  | Raise _ => None
  end.

(** Stage 2, the body of the second [try]. *)
Definition fetch_stage2_try (url : string) (timeout : Z) : outcome string :=
  _ ← import_requests W;
  r ← requests_get W url timeout;
  _ ← raise_for_status r;
  Ret (text r).

(** Stage 3: [trafilatura.extract], outside any [try]; [text or ""]. *)
Definition fetch_stage3 (downloaded url : string) : outcome string :=
  t ← trafilatura_extract W downloaded url;
  Ret (match t with
       | Some s => s
       | None => ""
       end).

Definition fetch_text (url : string) (timeout : Z) : outcome string :=
  match fetch_stage1 url with
  | Some (String c d) => fetch_stage3 (String c d) url
  | _ =>
      match fetch_stage2_try url timeout with
      | Ret downloaded => fetch_stage3 downloaded url
      | Raise _ => Ret ""
      end
  end.

(** *** Text selector: [full or hint or title] *)

Definition base_text (full hint title : string) : string :=
  or_ full (or_ hint title).

(** *** Extractive summarizer *)

(** Modelled from the spec: the ranking summarizer lives in the sumy
    library, not in [main.py]; section 4.4 describes it. A sentence is kept
    with its position in the document and its rating. *)
Record SentenceInfo : Type := {
  si_sentence : string;
  si_order : nat;
  si_rating : rating W;
}.

(** Modelled from the spec: section 4.4 step 5, the [k] best sentences by
    score. As sumy does it: [sorted(infos, key=rating, reverse=True)], a
    stable sort, so that sentences of equal rating stay in document order,
    followed by [infos[:count]]. *)
Fixpoint insert_by_rating (x : SentenceInfo) (l : list SentenceInfo)
  : list SentenceInfo :=
  match l with
  | [] => [x]
  | y :: l' =>
      if rating_ltb W (si_rating x) (si_rating y)
      then y :: insert_by_rating x l'
      else x :: l
  end.

(** Modelled from the spec: section 4.4 step 5, the output order is the
    position in the source text; [sorted(infos, key=order)]. *)
Fixpoint insert_by_order (x : SentenceInfo) (l : list SentenceInfo)
  : list SentenceInfo :=
  match l with
  | [] => [x]
  | y :: l' =>
      if (si_order y <? si_order x)%nat
      then y :: insert_by_order x l'
      else x :: l
  end.

(** Modelled from the spec: the entry of sentence [s] at position [o]. *)
Definition sentence_info (rate : string -> rating W) (o : nat) (s : string)
  : SentenceInfo :=
  {| si_sentence := s; si_order := o; si_rating := rate s |}.

(** Modelled from the spec: the selection of section 4.4 step 5 as a whole:
    rank, keep the best [count], put them back in document order. *)
Definition get_best_sentences
  (sentences : list string) (count : Z) (rate : string -> rating W)
  : list string :=
  let infos := imap (sentence_info rate) sentences in
  let infos := foldr insert_by_rating [] infos in
  let infos := slice_to infos count in
  let infos := foldr insert_by_order [] infos in
  si_sentence <$> infos.

(** Modelled from the spec: [summarizer(document, count)], the call of the
    sumy summarizer: nothing for a document without sentences, otherwise
    the rating (section 4.4 steps 2 to 4, left open in [World]) followed by
    the selection above. *)
Definition text_rank (sentences : list string) (count : Z)
  : outcome (list string) :=
  match sentences with
  | [] => Ret []
  | _ :: _ =>
      rate ← rate_sentences W sentences;
      Ret (get_best_sentences sentences count rate)
  end.

(** [s.strip()] is truthy. *)
Definition nonblank (s : string) : bool := truthy (strip s).

(** [re.sub(r"\s+", " ", s).strip(" .")]. *)
Definition space_or_dot (c : ascii) : bool :=
  if decide (c = " "%char) then true
  else if decide (c = "."%char) then true else false.

Definition clean_sentence (s : string) : string :=
  strip_by space_or_dot (sub_spaces s).

(** The [try] block of [summarize_text] and its [except] branch. The
    document is built lazily: inside the [try] by the summarizer call, and
    once more by the [except] branch, which keeps the leading sentences. *)
Definition pick_sentences (text : string) (sentences : Z)
  : outcome (list string) :=
  try_except
    (doc ← document_sentences W text; text_rank doc sentences)
    (fun _ => doc ← document_sentences W text; Ret (slice_to doc sentences)).

(** The list [sents] of [summarize_text] just before it is rendered. *)
Definition summary_sentences (text : string) (sentences : Z)
  : outcome (list string) :=
  if truthy text then
    _ ← nlp_setup W;
    sents ← pick_sentences text sentences;
    Ret (clean_sentence <$> filter (fun s => nonblank s = true) (sents : list string))
  else Ret [].

Definition bullet (s : string) : string := "- " +:+ s +:+ ".".

Definition summarize_text (text : string) (sentences : Z) : outcome string :=
  sents ← summary_sentences text sentences;
  match sents with
  | [] => Ret ""
  | _ :: _ => Ret (join LF (bullet <$> sents))
  end.

(** *** Small helpers *)

Definition html_to_text (html : string) : string :=
  if truthy html then
    match soup_get_text W html with
    | Ret t => strip (sub_spaces t)
    | Raise _ => ""
    end
  else "".

Definition domain_of (url : string) : string :=
  match urlparse W url with
  | Ret p => remove_all "www." (netloc p)
  | Raise _ => ""
  end.

Definition hash_id (s : string) : string :=
  String.substring 0 10 (sha1_hexdigest W s).

End Pipeline.

(** ** Persistent state and the run loop *)

(** An item collected from a feed (the dict appended to [items]). *)
Record Item : Type := {
  it_title : string;
  it_link : string;
  it_source : string;
  it_uid : string;
  it_hint : string;
  it_published : string;
}.

(** [{**it, "summary": summary}]. *)
Record Result : Type := {
  res_item : Item;
  res_summary : string;
}.

(** An object of [all_articles.json]. *)
Record HistoryEntry : Type := {
  h_uid : string;
  h_title : string;
  h_link : string;
  h_source : string;
  h_published : string;
  h_summary : string;
}.

(** What a state file holds when the run starts: no file, a file that
    cannot be read as the expected JSON, or its content. *)
Inductive file (A : Type) : Type :=
| Absent
| Unreadable
| Stored (content : A).
Arguments Absent {A}.
Arguments Unreadable {A}.
Arguments Stored {A} content.

Record Disk : Type := {
  seen_json : file (list string);
  all_articles_json : file (list HistoryEntry);
  (** whether each output can be written; [false] stands for an [open]
      that fails, which leaves the file as it is. A failure after the
      [open], when the file is already truncated, is outside the model. *)
  seen_json_writable : bool;
  all_articles_json_writable : bool;
  reports_writable : bool;
}.

(** The environment variables, already parsed. *)
Record Config : Type := {
  feeds : list string;
  sentences : Z;
  max_per_feed : Z;
  timeout : Z;
}.

(** The accumulators of the fetch and summarize loop; [fetched] logs the
    argument of every call of [fetch_text], in call order. *)
Record LoopState : Type := {
  results : list Result;
  seen : gset string;
  fetched : list string;
}.

(** The accumulators of the history loop. *)
Record HistoryState : Type := {
  history_entries : list HistoryEntry;
  known_ids : gset string;
  updated_history : bool;
}.

(** What a completed run leaves behind. *)
Record Run : Type := {
  run_items : list Item;
  run_results : list Result;
  run_fetched : list string;
  run_seen : gset string;
  run_history : list HistoryEntry;
  run_seen_json : file (list string);
  run_all_articles_json : file (list HistoryEntry);
}.

Inductive termination : Type :=
| Exit (code : Z)
| Uncaught (e : exn)
| Completed (r : Run).

Definition UNAVAILABLE : string :=
  "- (Résumé indisponible – texte non détecté).".

(** A [for] loop whose body may raise. *)
Fixpoint for_each {A S : Type} (body : S -> A -> outcome S) (l : list A) (s : S)
  : outcome S :=
  match l with
  | [] => Ret s
  | x :: l' => s' ← body s x; for_each body l' s'
  end.

Definition load_seen (f : file (list string)) : gset string :=
  match f with
  | Stored uids => list_to_set uids
  | _ => ∅
  end.

(** [sorted(list(seen))] goes to the file if it can be written; if the
    file cannot be opened the exception is swallowed and the file stays. *)
Definition save_seen (d : Disk) (seen : gset string) : file (list string) :=
  if seen_json_writable d
  then Stored (merge_sort String.le (elements seen))
  else seen_json d.

Definition load_history (f : file (list HistoryEntry)) : list HistoryEntry :=
  match f with
  | Stored entries => entries
  | _ => []
  end.

(** The entries go to the file if it can be written; if the file cannot be
    opened the exception is swallowed and the file stays. *)
Definition save_history (d : Disk) (entries : list HistoryEntry)
  : file (list HistoryEntry) :=
  if all_articles_json_writable d
  then Stored entries
  else all_articles_json d.

Definition history_entry_of (res : Result) : HistoryEntry :=
  {| h_uid := it_uid (res_item res);
     h_title := it_title (res_item res);
     h_link := it_link (res_item res);
     h_source := it_source (res_item res);
     h_published := it_published (res_item res);
     h_summary := res_summary res |}.

(** The body of [for res in results]: append unless the uid is known. *)
Definition append_history (st : HistoryState) (res : Result) : HistoryState :=
  let uid := it_uid (res_item res) in
  if decide (uid ∈ known_ids st) then st
  else {| history_entries := history_entries st ++ [history_entry_of res];
          known_ids := {[uid]} ∪ known_ids st;
          updated_history := true |}.

Definition merge_history (history : list HistoryEntry) (rs : list Result)
  : HistoryState :=
  fold_left append_history rs
    {| history_entries := history;
       known_ids := list_to_set (h_uid <$> history);
       updated_history := false |}.

Section Run.

Context (W : World).

(** The hint of an entry: [summary], else [summary_detail.value], else
    [content[0].value]. *)
Definition hint_html_of (entry : FeedEntry) : string :=
  if truthy (e_summary entry) then e_summary entry
  else if truthy (e_summary_detail_value entry) then e_summary_detail_value entry
  else match e_content entry with
       | v :: _ => v
       | [] => ""
       end.

(** The body of [for entry in fp.entries[:max_per_feed]]. The membership
    test reads the set [seen] loaded at the start of the run. *)
Definition collect_entry (seen0 : gset string) (items : list Item)
  (entry : FeedEntry) : outcome (list Item) :=
  let title := strip (e_title entry) in
  let link := strip (e_link entry) in
  if truthy link then
    orig ← extract_original_url W link;
    let hint_text := html_to_text W (hint_html_of entry) in
    let uid := hash_id W (or_ orig link) in
    if decide (uid ∈ seen0) then Ret items
    else Ret (items ++
              [{| it_title := or_ title "(Sans titre)";
                  it_link := or_ orig link;
                  it_source := domain_of W (or_ orig link);
                  it_uid := uid;
                  it_hint := hint_text;
                  it_published := or_ (e_published entry) (e_updated entry) |}])%list
  else Ret items.

(** The body of [for feed_url in feeds]. *)
Definition collect_feed (cfg : Config) (seen0 : gset string)
  (items : list Item) (feed_url : string) : outcome (list Item) :=
  entries ← feedparser_parse W feed_url;
  for_each (collect_entry seen0) (slice_to entries (max_per_feed cfg)) items.

(** The body of the [try] block of [for it in items]. *)
Definition process_item (cfg : Config) (it : Item) : outcome Result :=
  full ← fetch_text W (it_link it) (timeout cfg);
  let base := base_text full (it_hint it) (it_title it) in
  summary ← (if truthy base then summarize_text W base (sentences cfg)
             else Ret "");
  Ret {| res_item := it;
         res_summary := if truthy summary then summary else UNAVAILABLE |}.

(** One turn of [for it in items]: a failure is logged and the item left
    out of [results] and of [seen]. *)
Definition process_step (cfg : Config) (st : LoopState) (it : Item) : LoopState :=
  match process_item cfg it with
  | Ret r =>
      {| results := results st ++ [r];
         seen := {[it_uid it]} ∪ seen st;
         fetched := fetched st ++ [it_link it] |}
  | Raise _ =>
      {| results := results st;
         seen := seen st;
         fetched := fetched st ++ [it_link it] |}
  end.

Definition process_items (cfg : Config) (seen0 : gset string)
  (items : list Item) : LoopState :=
  fold_left (process_step cfg) items
    {| results := []; seen := seen0; fetched := [] |}.

Definition file_exists {A : Type} (f : file A) : bool :=
  match f with
  | Absent => false
  | _ => true
  end.

(** [main()] from the feeds on, for a configuration already parsed and an
    output directory that exists. The three [int(os.getenv(...))] and
    [os.makedirs], which may raise before anything is read, and a history
    file whose entries are not objects, which makes [entry.get] raise, are
    outside the model: [Config] holds integers and a state file holds
    entries of the expected type or is unreadable. *)
Definition main (cfg : Config) (d : Disk) : termination :=
  match feeds cfg with
  | [] => Exit 1
  | _ :: _ =>
      let seen0 := load_seen (seen_json d) in
      match for_each (collect_feed cfg seen0) (feeds cfg) [] with
      | Raise e => Uncaught e
      | Ret items =>
          let st := process_items cfg seen0 items in
          let hs := merge_history (load_history (all_articles_json d))
                                  (results st) in
          let history_file :=
            if updated_history hs || negb (file_exists (all_articles_json d))
            then save_history d (history_entries hs)
            else all_articles_json d in
          if reports_writable d then
            Completed {| run_items := items;
                         run_results := results st;
                         run_fetched := fetched st;
                         run_seen := seen st;
                         run_history := history_entries hs;
                         run_seen_json := save_seen d (seen st);
                         run_all_articles_json := history_file |}
          else Uncaught "OSError"
      end
  end.

End Run.

(** ** The resolver as the specification words it *)

(** A place where a redirect link may carry its target. *)
Inductive location : Type :=
| InQuery (key : string)
| InFragment (key : string).

Definition part_of (p : ParseResult) (l : location) : string :=
  match l with
  | InQuery _ => query p
  | InFragment _ => fragment p
  end.

Definition key_of (l : location) : string :=
  match l with
  | InQuery k => k
  | InFragment k => k
  end.

(** Inspect the places in order; the first present, non-empty value is
    percent-decoded and returned; with no match the link itself is. *)
Fixpoint inspect (W : World) (p : ParseResult) (places : list location)
  (link : string) : outcome string :=
  match places with
  | [] => Ret link
  | l :: rest =>
      qs ← parse_qs W (part_of p l);
      match first_value qs (key_of l) with
      | Some v => unquote W v
      | None => inspect W p rest link
      end
  end.

(** Any failure degrades to the identity. *)
Definition resolve_in_order (W : World) (places : list location) (link : string)
  : outcome string :=
  try_except (p ← urlparse W link; inspect W p places link) (fun _ => Ret link).

(** The order of section 4.1 of the specification. *)
Definition spec_order : list location :=
  [InQuery "url"; InQuery "q"; InFragment "url"; InFragment "q"].

(** The order [extract_original_url] follows. *)
Definition code_order : list location :=
  [InQuery "url"; InQuery "q"; InFragment "url"].

(** A link is canonical when neither its query nor its fragment carries a
    [url] or [q] value. A link that cannot be parsed carries none. *)
Definition carries_no (W : World) (p : ParseResult) (l : location) : bool :=
  match parse_qs W (part_of p l) with
  | Ret qs =>
      match first_value qs (key_of l) with
      | Some _ => false
      | None => true
      end
  | Raise _ => true
  end.

Definition canonical (W : World) (link : string) : bool :=
  match urlparse W link with
  | Ret p => forallb (carries_no W p) spec_order
  | Raise _ => true
  end.

(** ** An executable instance of the libraries *)

Module RefWorld.

(** [s.split(c, 1)]: the text before the first [c] and, if [c] occurs, the
    text after it. *)
Fixpoint split_once (c : ascii) (s : string) : string * option string :=
  match s with
  | EmptyString => (EmptyString, None)
  | String a s' =>
      if decide (a = c) then (EmptyString, Some s')
      else let '(pre, post) := split_once c s' in (String a pre, post)
  end.

(** [s.split(c)]. *)
Fixpoint split_all (c : ascii) (s : string) : list string :=
  match s with
  | EmptyString => [EmptyString]
  | String a s' =>
      if decide (a = c) then EmptyString :: split_all c s'
      else match split_all c s' with
           | piece :: pieces => String a piece :: pieces
           | [] => [String a EmptyString]
           end
  end.

Fixpoint contains (c : ascii) (s : string) : bool :=
  match s with
  | EmptyString => false
  | String a s' => if decide (a = c) then true else contains c s'
  end.

Fixpoint all_chars (p : ascii -> bool) (s : string) : bool :=
  match s with
  | EmptyString => true
  | String a s' => p a && all_chars p s'
  end.

Definition in_range (lo hi : nat) (c : ascii) : bool :=
  ((lo <=? nat_of_ascii c)%nat && (nat_of_ascii c <=? hi)%nat).

Definition is_alpha (c : ascii) : bool := in_range 65 90 c || in_range 97 122 c.
Definition is_digit (c : ascii) : bool := in_range 48 57 c.

Definition is_scheme_char (c : ascii) : bool :=
  is_alpha c || is_digit c
  || bool_decide (c = "+"%char) || bool_decide (c = "-"%char)
  || bool_decide (c = "."%char).

Definition lower (c : ascii) : ascii :=
  if in_range 65 90 c then ascii_of_nat (nat_of_ascii c + 32) else c.

Fixpoint lower_string (s : string) : string :=
  match s with
  | EmptyString => EmptyString
  | String a s' => String (lower a) (lower_string s')
  end.

(** The network location: the text up to the first of [/], [?], [#]. *)
Fixpoint split_netloc (s : string) : string * string :=
  match s with
  | EmptyString => (EmptyString, EmptyString)
  | String a s' =>
      if bool_decide (a = "/"%char) || bool_decide (a = "?"%char)
         || bool_decide (a = "#"%char)
      then (EmptyString, s)
      else let '(loc, rest) := split_netloc s' in (String a loc, rest)
  end.

(** [urllib.parse.urlparse] on a stripped link: scheme, network location
    (an unbalanced bracket raises [ValueError]), then fragment and query.
    Path parameters are left in [path]. *)
Definition split_url (url : string) : outcome ParseResult :=
  let '(sch, url1) :=
    match split_once ":" url with
    | (String a pre, Some rest) =>
        if is_alpha a && all_chars is_scheme_char pre
        then (lower_string (String a pre), rest)
        else (EmptyString, url)
    | _ => (EmptyString, url)
    end in
  let '(loc, url2) :=
    match url1 with
    | String "/" (String "/" rest) => split_netloc rest
    | _ => (EmptyString, url1)
    end in
  if xorb (contains "[" loc) (contains "]" loc)
  then Raise "ValueError"
  else
    let '(url3, frag) := split_once "#" url2 in
    let '(pth, qry) := split_once "?" url3 in
    Ret {| scheme := sch; netloc := loc; path := pth; params := "";
           query := default "" qry; fragment := default "" frag |}.

Definition hex_value (c : ascii) : option nat :=
  if is_digit c then Some (nat_of_ascii c - 48)
  else if in_range 65 70 c then Some (nat_of_ascii c - 55)
  else if in_range 97 102 c then Some (nat_of_ascii c - 87)
  else None.

(** [urllib.parse.unquote] on text whose decoded bytes are valid UTF-8:
    every [%XX] with two hexadecimal digits becomes the byte [XX]. *)
Fixpoint percent_decode_from (skip : nat) (s : string) : string :=
  match s with
  | EmptyString => EmptyString
  | String a s' =>
      match skip with
      | S n => percent_decode_from n s'
      | O =>
          match s' with
          | String h (String l _) =>
              match (if decide (a = "%"%char) then Some tt else None),
                    hex_value h, hex_value l with
              | Some _, Some x, Some y =>
                  String (ascii_of_nat (16 * x + y)) (percent_decode_from 2 s')
              | _, _, _ => String a (percent_decode_from 0 s')
              end
          | _ => String a (percent_decode_from 0 s')
          end
      end
  end.
Definition percent_decode (s : string) : string := percent_decode_from 0 s.

Fixpoint plus_to_space (s : string) : string :=
  match s with
  | EmptyString => EmptyString
  | String a s' =>
      String (if decide (a = "+"%char) then " "%char else a) (plus_to_space s')
  end.

(** [urllib.parse.parse_qs] with its defaults: fields are separated by
    [&]; a field without [=] or with an empty value is dropped; names and
    values are decoded; the values of one name are listed in order. *)
Definition query_dict_field (qs : gmap string (list string)) (field : string)
  : gmap string (list string) :=
  match split_once "=" field with
  | (name, Some (String a v)) =>
      let name := percent_decode (plus_to_space name) in
      let value := percent_decode (plus_to_space (String a v)) in
      <[name := (default [] (qs !! name) ++ [value])%list]> qs
  | _ => qs
  end.

Definition query_dict (s : string) : gmap string (list string) :=
  fold_left query_dict_field (split_all "&" s) ∅.

(** A sentence splitter standing in for the tokenizer: a sentence ends
    after [.], [!] or [?] followed by whitespace; sentences are stripped
    and empty ones dropped. *)
Fixpoint split_sentences_from (cur : string) (s : string) : list string :=
  match s with
  | EmptyString => [String.rev cur]
  | String a s' =>
      let ends :=
        (bool_decide (a = "."%char) || bool_decide (a = "!"%char)
         || bool_decide (a = "?"%char))
        && match s' with
           | EmptyString => true
           | String b _ => isspace b
           end in
      if ends then String.rev (String a cur) :: split_sentences_from EmptyString s'
      else split_sentences_from (String a cur) s'
  end.

Definition split_sentences (s : string) : list string :=
  filter (fun t => nonblank t = true) (strip <$> split_sentences_from EmptyString s).

Fixpoint lookup_feed (table : list (string * list FeedEntry)) (feed_url : string)
  : outcome (list FeedEntry) :=
  match table with
  | [] => Ret []
  | (u, entries) :: rest =>
      if decide (u = feed_url) then Ret entries else lookup_feed rest feed_url
  end.

(** The instance: feeds come from a table, pages from [web], extraction
    from [extractor]; markup is taken to be plain text already, the digest
    is the text read backwards, and a sentence is rated by its length. *)
Definition world
  (table : list (string * list FeedEntry))
  (web : string -> outcome (option string))
  (extractor : string -> string -> outcome (option string)) : World :=
  {| urlparse := split_url;
     parse_qs := fun s => Ret (query_dict s);
     unquote := fun s => Ret (percent_decode s);
     sha1_hexdigest := String.rev;
     feedparser_parse := lookup_feed table;
     soup_get_text := fun html => Ret html;
     trafilatura_fetch_url := web;
     import_requests := Ret tt;
     requests_get := fun _ _ => Raise "ConnectionError";
     trafilatura_extract := extractor;
     nlp_setup := Ret tt;
     document_sentences := fun t => Ret (split_sentences t);
     rating := nat;
     rating_ltb := Nat.ltb;
     rate_sentences := fun _ => Ret String.length |}.

(** No feed, no reachable page, an extractor that finds nothing. *)
Definition offline : World :=
  world [] (fun _ => Ret None) (fun _ _ => Ret None).

End RefWorld.

(** ** The run as the specification reads it *)

Definition res_uid (res : Result) : string := it_uid (res_item res).

(** The elements of a list in the order in which they first occur. *)
Fixpoint first_occurrences (l : list string) : list string :=
  match l with
  | [] => []
  | u :: l' => u :: filter (fun v => v <> u) (first_occurrences l')
  end.

(** The resolved link of an entry, its identifier, and the item the run
    builds from it. *)
Definition entry_target (W : World) (entry : FeedEntry) : string :=
  let link := strip (e_link entry) in
  match extract_original_url W link with
  | Ret orig => or_ orig link
  | Raise _ => link
  end.

Definition entry_uid (W : World) (entry : FeedEntry) : string :=
  hash_id W (entry_target W entry).

Definition item_of_entry (W : World) (entry : FeedEntry) : Item :=
  {| it_title := or_ (strip (e_title entry)) "(Sans titre)";
     it_link := entry_target W entry;
     it_source := domain_of W (entry_target W entry);
     it_uid := entry_uid W entry;
     it_hint := html_to_text W (hint_html_of entry);
     it_published := or_ (e_published entry) (e_updated entry) |}.

(** What one entry adds to [items]: nothing without a link or with an
    identifier in the set loaded at the start, else its item. *)
Definition contribution (W : World) (seen0 : gset string) (entry : FeedEntry)
  : list Item :=
  if truthy (strip (e_link entry)) then
    if decide (entry_uid W entry ∈ seen0) then [] else [item_of_entry W entry]
  else [].

(** The entries a run reads: of every feed the first [max_per_feed]
    entries. Those with a link are the ones it considers. *)
Definition read_entries (W : World) (cfg : Config) : list FeedEntry :=
  flat_map
    (fun feed_url =>
       match feedparser_parse W feed_url with
       | Ret entries => slice_to entries (max_per_feed cfg)
       | Raise _ => []
       end)
    (feeds cfg).

Definition considered_entries (W : World) (cfg : Config) : list FeedEntry :=
  filter (fun entry => truthy (strip (e_link entry)) = true)
         (read_entries W cfg).

(** How often [u] occurs in a list of uids. *)
Definition occurrences (u : string) (l : list string) : nat :=
  length (filter (fun v => v = u) l).

(** The results of the items whose fetch and summary raise nothing. *)
Definition processed (W : World) (cfg : Config) (items : list Item)
  : list Result :=
  omap (fun it =>
          match process_item W cfg it with
          | Ret r => Some r
          | Raise _ => None
          end)
       items.

(** Sentences compared by their position in the document. *)
Definition by_order (W : World) : relation (SentenceInfo W) :=
  fun a b => (si_order W a < si_order W b)%nat.

Definition order_le (W : World) : relation (SentenceInfo W) :=
  fun a b => (si_order W a <= si_order W b)%nat.

(** The set [known_ids] holds the uids of [history_entries]. *)
Definition history_inv (st : HistoryState) : Prop :=
  known_ids st = list_to_set (h_uid <$> history_entries st).

(** A state file lists no uid twice. *)
Definition lists_once (f : file (list HistoryEntry)) : Prop :=
  match f with
  | Stored entries => NoDup (h_uid <$> entries)
  | _ => True
  end.

(** ** Sample runs *)

Module Demo.

(** One alert, listed by two feeds. *)
Definition alert : FeedEntry :=
  {| e_title := "Faille critique";
     e_link := "https://www.google.com/url?rct=j&url=https://example.com/a&ct=ga";
     e_summary := "";
     e_summary_detail_value := "";
     e_content := ["Une faille."];
     e_published := "2024-05-01";
     e_updated := "" |}.

Definition two_feeds : list (string * list FeedEntry) :=
  [("https://alerts.example/feeds/1", [alert]);
   ("https://alerts.example/feeds/2", [alert])].

Definition page : string :=
  "Une faille critique touche le produit. Un correctif existe.".

Definition cfg : Config :=
  {| feeds := ["https://alerts.example/feeds/1"; "https://alerts.example/feeds/2"];
     sentences := 4;
     max_per_feed := 20;
     timeout := 20 |}.

(** A first run in an empty output directory. *)
Definition fresh : Disk :=
  {| seen_json := Absent;
     all_articles_json := Absent;
     seen_json_writable := true;
     all_articles_json_writable := true;
     reports_writable := true |}.

(** The output directory of an earlier run whose [seen.json] has become
    unreadable. *)
Definition seen_lost (history : file (list HistoryEntry)) : Disk :=
  {| seen_json := Unreadable;
     all_articles_json := history;
     seen_json_writable := true;
     all_articles_json_writable := true;
     reports_writable := true |}.

Definition old_entry : HistoryEntry :=
  {| h_uid := "a/moc.elpm";
     h_title := "Faille critique";
     h_link := "https://example.com/a";
     h_source := "example.com";
     h_published := "2024-05-01";
     h_summary := "- Une faille critique touche le produit." |}.

(** An article of an earlier run that the feeds no longer list, and the
    output directory that run left. *)
Definition older_entry : HistoryEntry :=
  {| h_uid := "z/moc.elpm";
     h_title := "Ancienne alerte";
     h_link := "https://example.com/z";
     h_source := "example.com";
     h_published := "2024-04-01";
     h_summary := "- Une alerte plus ancienne." |}.

Definition earlier : Disk :=
  {| seen_json := Stored ["z/moc.elpm"];
     all_articles_json := Stored [older_entry];
     seen_json_writable := true;
     all_articles_json_writable := true;
     reports_writable := true |}.

Definition result_of (uid title : string) : Result :=
  {| res_item := {| it_title := title; it_link := "https://example.com/" +:+ uid;
                    it_source := "example.com"; it_uid := uid; it_hint := "";
                    it_published := "" |};
     res_summary := "- " +:+ title +:+ "." |}.

(** The article is online and extraction gives its text. *)
Definition online : World :=
  RefWorld.world two_feeds (fun _ => Ret (Some page)) (fun d _ => Ret (Some d)).

(** The article is online and extraction raises. *)
Definition extraction_broken : World :=
  RefWorld.world two_feeds (fun _ => Ret (Some page))
                 (fun _ _ => Raise "TypeError").

End Demo.

(** ** The rest of [main.py]: the environment and the text helpers *)

(** [str.splitlines] breaks a text at LF, VT, FF, CR, FS, GS and RS, and
    takes CR LF as one break. This is the ASCII range: the breaks U+0085,
    U+2028 and U+2029 of Python are not recognised in a byte string. *)
Definition is_linebreak (c : ascii) : bool :=
  let n := nat_of_ascii c in
  ((10 <=? n)%nat && (n <=? 13)%nat) || ((28 <=? n)%nat && (n <=? 30)%nat).

Fixpoint splitlines (s : string) : list string :=
  match s with
  | EmptyString => []
  | String c s' =>
      if is_linebreak c then
        match s' with
        | String d s'' =>
            if bool_decide (c = ascii_of_nat 13) && bool_decide (d = ascii_of_nat 10)
            then EmptyString :: splitlines s''
            else EmptyString :: splitlines s'
        | EmptyString => [EmptyString]
        end
      else
        match splitlines s' with
        | line :: lines => String c line :: lines
        | [] => [String c EmptyString]
        end
  end.

(** [s.replace(pat, by)] for a non-empty [pat]. *)
Fixpoint replace_from (pat by_ : string) (skip : nat) (s : string) : string :=
  match s with
  | EmptyString => EmptyString
  | String c s' =>
      match skip with
      | S n => replace_from pat by_ n s'
      | O =>
          if String.prefix pat s
          then by_ +:+ replace_from pat by_ (String.length pat - 1) s'
          else String c (replace_from pat by_ 0 s')
      end
  end.

(** The two characters backslash and [n], as the source writes ["\\n"]. *)
Definition BACKSLASH_N : string := String "\" (String "n" EmptyString).

(** [get_env_list(name)], applied to the value [os.getenv(name, "")]. *)
Definition get_env_list (value : string) : list string :=
  let raw := strip value in
  if truthy raw then
    flat_map
      (fun chunk =>
         filter (fun p => truthy p = true)
                (strip <$> RefWorld.split_all "," chunk))
      (splitlines (replace_from BACKSLASH_N LF 0 raw))
  else [].

(** A text in which whitespace occurs only as single spaces; [after_space]
    tells whether the character before the text is a space. *)
Fixpoint single_spaced (after_space : bool) (s : string) : bool :=
  match s with
  | EmptyString => true
  | String c s' =>
      if isspace c
      then bool_decide (c = " "%char) && negb after_space && single_spaced true s'
      else single_spaced false s'
  end.

Definition is_dot (c : ascii) : bool := bool_decide (c = "."%char).

(** A character of the ASCII range, where Python's [str.strip] and
    [str.splitlines] agree with [strip] and [splitlines] here. *)
Definition is_ascii (c : ascii) : bool := (nat_of_ascii c <? 128)%nat.

(** A character other than [c]. *)
Definition is_not (c a : ascii) : bool := negb (bool_decide (a = c)).

(** A part of a list of feeds: no comma and no line break in it. *)
Definition part_char (c : ascii) : bool :=
  negb (bool_decide (c = ","%char)) && negb (is_linebreak c).

(** *** The report renderer [make_md] *)

(** [(r.get('summary') or '').strip() or "- (Résumé indisponible)."]. *)
Definition report_summary (summary : string) : string :=
  or_ (strip summary) "- (Résumé indisponible).".

(** The line under the heading: source and date, as far as they are known. *)
Definition report_meta (source published : string) : string :=
  let meta_parts :=
    ((if truthy source then ["Source: " +:+ source] else [])
     ++ (if truthy published then ["Publié: " +:+ published] else []))%list in
  match meta_parts with
  | [] => ""
  | _ :: _ => "*" +:+ join " | " meta_parts +:+ "*"
  end.

(** The body of [for r in res]. The function reads the keys [title],
    [link], [source], [published] and [summary], which results and history
    entries both carry; a history entry stands for either. *)
Definition report_entry (r : HistoryEntry) : string :=
  let meta := report_meta (h_source r) (h_published r) in
  let entry :=
    if truthy (h_link r)
    then "## [" +:+ h_title r +:+ "](" +:+ h_link r +:+ ")"
    else "## " +:+ h_title r in
  let entry := if truthy meta then entry +:+ "  " +:+ LF +:+ meta else entry in
  entry +:+ LF +:+ LF +:+ report_summary (h_summary r) +:+ LF.

Definition make_md (res : list HistoryEntry) (title : string) : string :=
  let header := "# " +:+ title +:+ LF +:+ LF in
  match res with
  | [] => header +:+ "_Aucun nouvel article._" +:+ LF
  | _ :: _ => join LF (header :: (report_entry <$> res))
  end.

(** The two documents of a run: the results of the day, and the whole
    history with the latest entry first. *)
Definition daily_md (r : Run) (today : string) : string :=
  make_md (history_entry_of <$> run_results r)
          ("Résumé Google Alerts – " +:+ today).

Definition history_md (r : Run) : string :=
  make_md (reverse (run_history r)) "Historique complet Google Alerts".


(** The same site behind an extractor of one's choice. *)
Definition answering_world (status : Z) (body : string)
  (extractor : string -> string -> outcome (option string)) : World :=
  {| urlparse := RefWorld.split_url;
     parse_qs := fun s => Ret (RefWorld.query_dict s);
     unquote := fun s => Ret (RefWorld.percent_decode s);
     sha1_hexdigest := String.rev;
     feedparser_parse := fun _ => Ret [];
     soup_get_text := fun html => Ret html;
     trafilatura_fetch_url := fun _ => Ret None;
     import_requests := Ret tt;
     requests_get := fun _ _ => Ret {| status_code := status; text := body |};
     trafilatura_extract := extractor;
     nlp_setup := Ret tt;
     document_sentences := fun t => Ret (RefWorld.split_sentences t);
     rating := nat;
     rating_ltb := Nat.ltb;
     rate_sentences := fun _ => Ret String.length |}.

(** The output directory a completed run leaves for the next run. *)
Definition disk_after (d : Disk) (r : Run) : Disk :=
  {| seen_json := run_seen_json r;
     all_articles_json := run_all_articles_json r;
     seen_json_writable := seen_json_writable d;
     all_articles_json_writable := all_articles_json_writable d;
     reports_writable := reports_writable d |}.

(** ** Facts about the resolver *)

Section ResolverFacts.

Context (W : World).

Lemma try_except_returns {A : Type} (body : outcome A) (a : A) :
  returns (try_except body (fun _ => Ret a)).
Proof. destruct body as [b|e]; [exists b | exists a]; reflexivity. Qed.

Lemma first_hit_two (qs : gmap string (list string)) (k1 k2 : string) :
  first_hit qs [k1; k2] =
  match first_value qs k1 with
  | Some v => Some v
  | None => first_value qs k2
  end.
Proof. simpl. destruct (first_value qs k1), (first_value qs k2); reflexivity. Qed.

Lemma extract_original_url_returns (link : string) :
  exists s, extract_original_url W link = Ret s.
Proof. apply try_except_returns. Qed.

Lemma extract_original_url_try_raises (link : string) (e : exn) :
  extract_original_url_try W link = Raise e ->
  extract_original_url W link = Ret link.
Proof. unfold extract_original_url. intros ->. reflexivity. Qed.

Lemma extract_original_url_no_match (link : string) (p : ParseResult)
  (qs frag_qs : gmap string (list string)) :
  urlparse W link = Ret p ->
  parse_qs W (query p) = Ret qs ->
  parse_qs W (fragment p) = Ret frag_qs ->
  first_value qs "url" = None ->
  first_value qs "q" = None ->
  first_value frag_qs "url" = None ->
  extract_original_url W link = Ret link.
Proof.
  intros Hp Hq Hf Hu Hqq Hfu.
  unfold extract_original_url, extract_original_url_try.
  rewrite Hp. cbn. rewrite Hq. cbn. rewrite Hu, Hqq. cbn.
  rewrite Hf. cbn. rewrite Hfu. reflexivity.
Qed.

Lemma canonical_fixed (link : string) :
  canonical W link = true -> extract_original_url W link = Ret link.
Proof.
  unfold canonical, extract_original_url, extract_original_url_try.
  destruct (urlparse W link) as [p|e]; [|reflexivity].
  cbn. unfold carries_no. cbn.
  destruct (parse_qs W (query p)) as [qs|e]; [|reflexivity].
  cbn.
  destruct (first_value qs "url"); [discriminate|].
  destruct (first_value qs "q"); [discriminate|].
  cbn.
  destruct (parse_qs W (fragment p)) as [fqs|e]; [|reflexivity].
  cbn.
  destruct (first_value fqs "url"); [discriminate|].
  reflexivity.
Qed.

End ResolverFacts.

(** The end-to-end scenario of the specification: the target sits in the
    [url] parameter of the query. *)
Example resolve_alert_link :
  extract_original_url RefWorld.offline
    "https://alerts.google.com/?url=https%3A%2F%2Fexample.com%2Fa"
  = Ret "https://example.com/a".
Proof. vm_compute. reflexivity. Qed.

(** [url] in the query wins over [q] in the query. *)
Example resolve_prefers_url :
  extract_original_url RefWorld.offline
    "https://www.google.com/url?q=https://b.example/&url=https://a.example/"
  = Ret "https://a.example/".
Proof. vm_compute. reflexivity. Qed.

(** C2, as stated, fails: a target that sits only in a [q] parameter of the
    fragment is not resolved; the link comes back unchanged, where the
    order of the specification would give the decoded target. *)
Lemma fragment_q_is_not_inspected :
  let link := "https://alerts.google.com/#q=https%3A%2F%2Fexample.com%2Fa" in
  extract_original_url RefWorld.offline link = Ret link
  /\ resolve_in_order RefWorld.offline spec_order link = Ret "https://example.com/a"
  /\ extract_original_url RefWorld.offline link <> Ret "https://example.com/a".
Proof. vm_compute. repeat split; discriminate. Qed.

(** C2, amended: for every link and every behaviour of the URL library, the
    resolver inspects query parameter [url], then query parameter [q], then
    the key [url] of the fragment, and returns the first present, non-empty
    value percent-decoded; the key [q] of the fragment is not inspected. *)
Theorem extract_original_url_order (W : World) (link : string) :
  extract_original_url W link = resolve_in_order W code_order link.
Proof.
  unfold extract_original_url, resolve_in_order, extract_original_url_try.
  f_equal.
  destruct (urlparse W link) as [p|e]; [|reflexivity].
  cbn.
  destruct (parse_qs W (query p)) as [qs|e]; [|reflexivity].
  cbn.
  destruct (first_value qs "url") as [v|]; [reflexivity|].
  destruct (first_value qs "q") as [v|]; reflexivity.
Qed.

(** C8: for every link and every behaviour of the URL library the resolver
    returns a string and never raises; when anything in its body raises, and
    when no candidate key matches, it returns the link unchanged. *)
Theorem extract_original_url_total (W : World) (link : string) :
  (exists s, extract_original_url W link = Ret s)
  /\ (forall e, extract_original_url_try W link = Raise e ->
                extract_original_url W link = Ret link)
  /\ (forall p qs frag_qs,
        urlparse W link = Ret p ->
        parse_qs W (query p) = Ret qs ->
        parse_qs W (fragment p) = Ret frag_qs ->
        first_value qs "url" = None ->
        first_value qs "q" = None ->
        first_value frag_qs "url" = None ->
        extract_original_url W link = Ret link).
Proof.
  split; [apply extract_original_url_returns|].
  split; [apply extract_original_url_try_raises|].
  apply extract_original_url_no_match.
Qed.

(** An unbalanced bracket makes the URL library raise; the link comes back
    as it is. A plain article link has no candidate key and comes back too. *)
Lemma extract_original_url_total_witness :
  extract_original_url RefWorld.offline "http://[::1/?url=b" = Ret "http://[::1/?url=b"
  /\ extract_original_url RefWorld.offline "https://example.com/a?id=7#top"
     = Ret "https://example.com/a?id=7#top".
Proof.
  split.
  - apply (proj1 (proj2 (extract_original_url_total RefWorld.offline
                           "http://[::1/?url=b")) "ValueError").
    vm_compute. reflexivity.
  - apply (proj2 (proj2 (extract_original_url_total RefWorld.offline
                           "https://example.com/a?id=7#top"))
             {| scheme := "https"; netloc := "example.com"; path := "/a";
                params := ""; query := "id=7"; fragment := "top" |}
             (RefWorld.query_dict "id=7") (RefWorld.query_dict "top"));
      vm_compute; reflexivity.
Defined.

(** C9: for every link in canonical form, resolving the resolved link gives
    the resolved link again. *)
Theorem extract_original_url_idempotent (W : World) (link : string) :
  canonical W link = true ->
  (s ← extract_original_url W link; extract_original_url W s)
  = extract_original_url W link.
Proof.
  intros Hc. rewrite (canonical_fixed W link Hc). cbn.
  apply canonical_fixed, Hc.
Qed.

Lemma extract_original_url_idempotent_witness :
  canonical RefWorld.offline "https://example.com/a?id=7#top" = true
  /\ (s ← extract_original_url RefWorld.offline "https://example.com/a?id=7#top";
      extract_original_url RefWorld.offline s)
     = extract_original_url RefWorld.offline "https://example.com/a?id=7#top".
Proof.
  split; [vm_compute; reflexivity|].
  apply (extract_original_url_idempotent RefWorld.offline
           "https://example.com/a?id=7#top").
  vm_compute. reflexivity.
Defined.

(** Outside canonical form the resolver is not idempotent: a target may
    itself be a redirect link. *)
Example resolve_twice_differs :
  let link := "https://r.example/?url=https%3A%2F%2Fs.example%2F%3Furl%3Dhttps%253A%252F%252Ft.example%252F" in
  extract_original_url RefWorld.offline link
    = Ret "https://s.example/?url=https://t.example/"
  /\ (s ← extract_original_url RefWorld.offline link;
      extract_original_url RefWorld.offline s) = Ret "https://t.example/".
Proof. vm_compute. split; reflexivity. Qed.

(** ** Facts about the fetcher and the text selector *)

Section FetcherFacts.

Context (W : World).

Lemma fetch_stage3_raises (downloaded url : string) (e : exn) :
  fetch_stage3 W downloaded url = Raise e ->
  trafilatura_extract W downloaded url = Raise e.
Proof.
  unfold fetch_stage3.
  destruct (trafilatura_extract W downloaded url) as [t|e']; cbn; congruence.
Qed.

Lemma fetch_stage3_returns (downloaded url : string) :
  returns (trafilatura_extract W downloaded url) ->
  returns (fetch_stage3 W downloaded url).
Proof.
  intros [t Ht]. unfold fetch_stage3. rewrite Ht. cbn. eexists. reflexivity.
Qed.

(** [fetch_text] is stage 3 on some payload, or the empty string. *)
Lemma fetch_text_cases (url : string) (timeout : Z) :
  (exists d, fetch_text W url timeout = fetch_stage3 W d url)
  \/ ((exists e, fetch_stage2_try W url timeout = Raise e)
      /\ fetch_text W url timeout = Ret "").
Proof.
  unfold fetch_text.
  destruct (fetch_stage1 W url) as [[|c d]|];
    try (left; eexists; reflexivity);
    (destruct (fetch_stage2_try W url timeout) as [d'|e];
     [left; eexists; reflexivity | right; split; [eexists|]; reflexivity]).
Qed.

Lemma fetch_text_no_payload (url : string) (timeout : Z) (e : exn) :
  (forall c d, fetch_stage1 W url <> Some (String c d)) ->
  fetch_stage2_try W url timeout = Raise e ->
  fetch_text W url timeout = Ret "".
Proof.
  intros H1 H2. unfold fetch_text. rewrite H2.
  destruct (fetch_stage1 W url) as [[|c d]|]; try reflexivity.
  exfalso. apply (H1 c d). reflexivity.
Qed.

End FetcherFacts.

(** C1, as stated, fails: main-content extraction runs outside any [try],
    so what it raises leaves [fetch_text]. *)
Lemma fetch_text_lets_extraction_raise :
  let W := RefWorld.world [] (fun _ => Ret (Some "<html>x</html>"))
                          (fun _ _ => Raise "TypeError") in
  fetch_text W "https://example.com/a" 20 = Raise "TypeError"
  /\ ~ returns (fetch_text W "https://example.com/a" 20).
Proof.
  cbv zeta. split; [vm_compute; reflexivity|].
  intros [s Hs]. vm_compute in Hs. discriminate.
Qed.

(** C1, amended: for every url and timeout, an exception raised by the
    direct download or by the headered HTTP GET is swallowed inside
    [fetch_text]: a failed direct download falls through to the HTTP GET,
    and when that raises too the result is the empty string. Main-content
    extraction runs outside any [try]: whenever a payload was obtained, by
    the direct download or else by the HTTP GET, and extraction raises on
    it, that exception leaves [fetch_text]; it is the only exception that
    can, and when extraction raises nothing [fetch_text] returns a
    string. *)
Theorem fetch_text_total_up_to_extraction (W : World) (url : string) (timeout : Z) :
  (forall e, fetch_text W url timeout = Raise e ->
             exists d, trafilatura_extract W d url = Raise e)
  /\ ((forall d, returns (trafilatura_extract W d url)) ->
      returns (fetch_text W url timeout))
  /\ (forall e, (forall c d, fetch_stage1 W url <> Some (String c d)) ->
                fetch_stage2_try W url timeout = Raise e ->
                fetch_text W url timeout = Ret "")
  /\ (forall c d e,
        fetch_stage1 W url = Some (String c d) ->
        trafilatura_extract W (String c d) url = Raise e ->
        fetch_text W url timeout = Raise e)
  /\ (forall d e,
        (forall c d', fetch_stage1 W url <> Some (String c d')) ->
        fetch_stage2_try W url timeout = Ret d ->
        trafilatura_extract W d url = Raise e ->
        fetch_text W url timeout = Raise e).
Proof.
  split; [|split; [|split; [|split]]].
  - intros e He.
    destruct (fetch_text_cases W url timeout) as [[d Hd]|[_ Hd]].
    + exists d. apply fetch_stage3_raises. congruence.
    + congruence.
  - intros Hx.
    destruct (fetch_text_cases W url timeout) as [[d Hd]|[_ Hd]].
    + rewrite Hd. apply fetch_stage3_returns, Hx.
    + exists "". exact Hd.
  - intros e. apply fetch_text_no_payload.
  - intros c d e H1 Hx. unfold fetch_text, fetch_stage3.
    rewrite H1, Hx. reflexivity.
  - intros d e H1 H2 Hx. unfold fetch_text. rewrite H2.
    unfold fetch_stage3. rewrite Hx.
    destruct (fetch_stage1 W url) as [[|c d']|]; try reflexivity.
    exfalso. apply (H1 c d'). reflexivity.
Qed.

(** With the network down both downloads fail and the text is empty; with a
    page at hand and an extractor that raises nothing the text comes back;
    with an extractor that raises, the exception comes out, whether the page
    came from the direct download or, with an empty body, from the HTTP
    GET. *)
Lemma fetch_text_total_up_to_extraction_witness :
  fetch_text RefWorld.offline "https://example.com/a" 20 = Ret ""
  /\ returns (fetch_text
                (RefWorld.world [] (fun _ => Ret (Some "<p>Bonjour.</p>"))
                                (fun d _ => Ret (Some d)))
                "https://example.com/a" 20)
  /\ fetch_text Demo.extraction_broken "https://example.com/a" 20
     = Raise "TypeError"
  /\ fetch_text (answering_world 200 "" (fun _ _ => Raise "TypeError"))
                "https://example.com/a" 20
     = Raise "TypeError".
Proof.
  split; [|split; [|split]].
  - apply (proj1 (proj2 (proj2 (fetch_text_total_up_to_extraction
                                  RefWorld.offline "https://example.com/a" 20)))
             "ConnectionError").
    + intros c d. vm_compute. discriminate.
    + vm_compute. reflexivity.
  - apply (proj1 (proj2 (fetch_text_total_up_to_extraction
                           (RefWorld.world [] (fun _ => Ret (Some "<p>Bonjour.</p>"))
                                           (fun d _ => Ret (Some d)))
                           "https://example.com/a" 20))).
    intros d. exists (Some d). reflexivity.
  - apply (proj1 (proj2 (proj2 (proj2 (fetch_text_total_up_to_extraction
                                         Demo.extraction_broken
                                         "https://example.com/a" 20))))
             "U"%char
             "ne faille critique touche le produit. Un correctif existe.");
      reflexivity.
  - apply (proj2 (proj2 (proj2 (proj2 (fetch_text_total_up_to_extraction
                                         (answering_world 200 ""
                                            (fun _ _ => Raise "TypeError"))
                                         "https://example.com/a" 20))))
             "").
    + intros c d. vm_compute. discriminate.
    + vm_compute. reflexivity.
    + reflexivity.
Defined.

(** C3: the text handed to the summarizer is [full] when [full] is not
    empty, else [hint] when [hint] is not empty, else [title]; so [hint] is
    ignored whenever [full] is present, and [title] matters exactly when
    both are empty. *)
Theorem base_text_priority (full hint title : string) :
  (full <> "" -> base_text full hint title = full)
  /\ (full = "" -> hint <> "" -> base_text full hint title = hint)
  /\ (full = "" -> hint = "" -> base_text full hint title = title)
  /\ (full <> "" ->
      forall hint' title', base_text full hint' title' = base_text full hint title)
  /\ ((forall title', base_text full hint title' = base_text full hint title)
      <-> ~ (full = "" /\ hint = "")).
Proof.
  unfold base_text, or_.
  repeat split.
  - destruct full; cbn; congruence.
  - intros -> H. destruct hint; cbn; congruence.
  - intros -> ->. reflexivity.
  - intros H hint' title'. destruct full; cbn; congruence.
  - intros H [-> ->]. cbn in H.
    specialize (H (String "x" title)).
    apply (f_equal String.length) in H. cbn in H. lia.
  - intros H title'.
    destruct full as [|a full]; [|reflexivity].
    destruct hint as [|b hint]; [|reflexivity].
    exfalso. apply H. split; reflexivity.
Qed.

Lemma base_text_priority_witness :
  base_text "Article." "Extrait." "Titre" = "Article."
  /\ base_text "" "Extrait." "Titre" = "Extrait."
  /\ base_text "" "" "Titre" = "Titre".
Proof.
  split; [|split].
  - apply (proj1 (base_text_priority "Article." "Extrait." "Titre")). discriminate.
  - apply (proj1 (proj2 (base_text_priority "" "Extrait." "Titre")));
      [reflexivity | discriminate].
  - apply (proj1 (proj2 (proj2 (base_text_priority "" "" "Titre")))); reflexivity.
Defined.

(** ** Facts about the summarizer *)

Section Sorting.

Context {A : Type} (R : relation A).
Context `{!Irreflexive R, !Transitive R}.

(** Two lists sorted by the same strict order: if every element of the
    first is in the second, the first is a sublist of the second. *)
Lemma sorted_subseteq_sublist (l1 l2 : list A) :
  StronglySorted R l1 -> StronglySorted R l2 ->
  (forall x, x ∈ l1 -> x ∈ l2) -> l1 `sublist_of` l2.
Proof.
  intros H1 H2. revert l1 H1.
  induction H2 as [|y l2 Hs2 IH Hy]; intros l1 H1 Hsub.
  - destruct l1 as [|x l1]; [constructor|].
    specialize (Hsub x (list_elem_of_here _ _)). inversion Hsub.
  - destruct l1 as [|x l1]; [apply sublist_nil_l|].
    apply StronglySorted_inv in H1 as [Hs1 Hx].
    rewrite Forall_forall in Hx, Hy.
    assert (Hin : x ∈ y :: l2) by (apply Hsub; left).
    apply elem_of_cons in Hin as [->|Hin].
    + apply sublist_skip, IH; [exact Hs1|].
      intros z Hz.
      assert (Hz' : z ∈ y :: l2) by (apply Hsub; right; exact Hz).
      apply elem_of_cons in Hz' as [->|Hz']; [|exact Hz'].
      exfalso. apply (irreflexivity R y), Hx, Hz.
    + apply sublist_cons, IH; [constructor; [exact Hs1|] |].
      * rewrite Forall_forall. exact Hx.
      * intros z Hz. apply elem_of_cons in Hz as [->|Hz]; [exact Hin|].
        assert (Hz' : z ∈ y :: l2) by (apply Hsub; right; exact Hz).
        apply elem_of_cons in Hz' as [->|Hz']; [|exact Hz'].
        exfalso. apply (irreflexivity R y).
        transitivity x; [apply Hy, Hin | apply Hx, Hz].
Qed.

End Sorting.

Lemma slice_to_sublist {A : Type} (l : list A) (k : Z) :
  slice_to l k `sublist_of` l.
Proof. unfold slice_to. destruct (0 <=? k)%Z; apply sublist_take. Qed.

Lemma slice_to_length {A : Type} (l : list A) (k : Z) :
  (0 <= k)%Z ->
  length (slice_to l k) = Z.to_nat (Z.min k (Z.of_nat (length l))).
Proof.
  intros Hk. unfold slice_to.
  destruct (Z.leb_spec 0 k) as [_|Hneg]; [|lia].
  rewrite length_take. lia.
Qed.

Section SummarizerFacts.

Context (W : World).

Local Instance by_order_irreflexive : Irreflexive (by_order W).
Proof. intros a H. unfold by_order in H. lia. Qed.

Local Instance by_order_transitive : Transitive (by_order W).
Proof. intros a b c. unfold by_order. lia. Qed.

Lemma insert_by_rating_perm (x : SentenceInfo W) (l : list (SentenceInfo W)) :
  insert_by_rating W x l ≡ₚ x :: l.
Proof.
  induction l as [|y l IH]; cbn; [reflexivity|].
  destruct (rating_ltb W (si_rating W x) (si_rating W y)); [|reflexivity].
  rewrite IH. apply Permutation_swap.
Qed.

Lemma insert_by_order_perm (x : SentenceInfo W) (l : list (SentenceInfo W)) :
  insert_by_order W x l ≡ₚ x :: l.
Proof.
  induction l as [|y l IH]; cbn [insert_by_order]; [reflexivity|].
  destruct (si_order W y <? si_order W x)%nat; [|reflexivity].
  rewrite IH. apply Permutation_swap.
Qed.

Lemma sort_by_rating_perm (l : list (SentenceInfo W)) :
  foldr (insert_by_rating W) [] l ≡ₚ l.
Proof.
  induction l as [|x l IH]; cbn; [reflexivity|].
  rewrite insert_by_rating_perm, IH. reflexivity.
Qed.

Lemma sort_by_order_perm (l : list (SentenceInfo W)) :
  foldr (insert_by_order W) [] l ≡ₚ l.
Proof.
  induction l as [|x l IH]; cbn; [reflexivity|].
  rewrite insert_by_order_perm, IH. reflexivity.
Qed.

Lemma insert_by_order_sorted (x : SentenceInfo W) (l : list (SentenceInfo W)) :
  StronglySorted (order_le W) l -> StronglySorted (order_le W) (insert_by_order W x l).
Proof.
  induction 1 as [|y l Hs IH Hy]; cbn [insert_by_order].
  - constructor; constructor.
  - destruct (Nat.ltb_spec (si_order W y) (si_order W x)) as [Hlt|Hge].
    + constructor; [exact IH|].
      rewrite insert_by_order_perm. constructor; [|exact Hy].
      unfold order_le. lia.
    + constructor; [constructor; assumption|].
      constructor; [exact Hge|].
      eapply Forall_impl; [exact Hy|].
      intros z Hz. unfold order_le in *. lia.
Qed.

Lemma sort_by_order_sorted (l : list (SentenceInfo W)) :
  StronglySorted (order_le W) (foldr (insert_by_order W) [] l).
Proof.
  induction l as [|x l IH]; cbn; [constructor|].
  apply insert_by_order_sorted, IH.
Qed.

Lemma sorted_nodup_strict (l : list (SentenceInfo W)) :
  StronglySorted (order_le W) l -> NoDup (si_order W <$> l) ->
  StronglySorted (by_order W) l.
Proof.
  induction 1 as [|x l Hs IH Hx]; intros Hnd; [constructor|].
  rewrite fmap_cons in Hnd. apply NoDup_cons in Hnd as [Hnotin Hnd].
  constructor; [apply IH, Hnd|].
  rewrite Forall_forall in Hx. rewrite Forall_forall. intros z Hz.
  specialize (Hx z Hz). unfold order_le in Hx. unfold by_order.
  assert (si_order W z <> si_order W x); [|lia].
  intros Heq. apply Hnotin. rewrite <- Heq.
  apply (list_elem_of_fmap_2 (si_order W)), Hz.
Qed.

Lemma seq_sorted (j n : nat) : StronglySorted lt (seq j n).
Proof.
  revert j. induction n as [|n IH]; intros j; cbn; constructor; [apply IH|].
  rewrite Forall_forall. intros i Hi. apply list_elem_of_In, in_seq in Hi. lia.
Qed.

Section Infos.

Context (rate : string -> rating W).

Lemma infos_orders (doc : list string) :
  si_order W <$> imap (sentence_info W rate) doc = seq 0 (length doc).
Proof.
  rewrite fmap_imap.
  rewrite (imap_ext _ (fun j _ => j)) by reflexivity.
  rewrite imap_seq_0. apply list_fmap_id.
Qed.

Lemma infos_sentences (doc : list string) :
  si_sentence W <$> imap (sentence_info W rate) doc = doc.
Proof.
  rewrite fmap_imap.
  rewrite (imap_ext _ (const id)) by reflexivity.
  rewrite imap_const. apply list_fmap_id.
Qed.

Lemma infos_sorted (doc : list string) :
  StronglySorted (by_order W) (imap (sentence_info W rate) doc).
Proof.
  pose proof (seq_sorted 0 (length doc)) as Hs.
  rewrite <- infos_orders in Hs.
  remember (imap (sentence_info W rate) doc) as l eqn:El. clear El.
  induction l as [|x l IH]; [constructor|].
  rewrite fmap_cons in Hs. apply StronglySorted_inv in Hs as [Hs Hx].
  constructor; [apply IH, Hs|].
  rewrite Forall_fmap in Hx. exact Hx.
Qed.

(** The selection keeps the document order: what it returns is a sublist
    of the document. *)
Lemma get_best_sentences_sublist (doc : list string) (count : Z) :
  get_best_sentences W doc count rate `sublist_of` doc.
Proof.
  unfold get_best_sentences.
  set (infos := imap (sentence_info W rate) doc).
  set (ranked := foldr (insert_by_rating W) [] infos).
  set (best := slice_to ranked count).
  set (out := foldr (insert_by_order W) [] best).
  assert (Hbest : best `sublist_of` ranked) by apply slice_to_sublist.
  assert (Hranked : ranked ≡ₚ infos) by apply sort_by_rating_perm.
  assert (Hout : out ≡ₚ best) by apply sort_by_order_perm.
  assert (Hnd : NoDup (si_order W <$> out)).
  { rewrite Hout. eapply sublist_NoDup; [|apply fmap_sublist, Hbest].
    rewrite Hranked. unfold infos. rewrite infos_orders. apply NoDup_seq. }
  assert (Hsub : out `sublist_of` infos).
  { apply (sorted_subseteq_sublist (by_order W)).
    - apply sorted_nodup_strict; [apply sort_by_order_sorted | exact Hnd].
    - apply infos_sorted.
    - intros x Hx. rewrite <- Hranked.
      eapply elem_of_sublist; [|exact Hbest]. rewrite <- Hout. exact Hx. }
  pose proof (fmap_sublist (si_sentence W) _ _ Hsub) as H.
  replace (si_sentence W <$> infos) with doc in H; [exact H|].
  symmetry. apply infos_sentences.
Qed.

Lemma get_best_sentences_length (doc : list string) (count : Z) :
  (0 <= count)%Z ->
  length (get_best_sentences W doc count rate)
  = Z.to_nat (Z.min count (Z.of_nat (length doc))).
Proof.
  intros Hk. unfold get_best_sentences.
  rewrite length_fmap, sort_by_order_perm, slice_to_length by exact Hk.
  rewrite sort_by_rating_perm, length_imap. reflexivity.
Qed.

End Infos.

End SummarizerFacts.

Lemma filter_all {A : Type} (P : A -> Prop) `{!forall x, Decision (P x)}
  (l : list A) :
  Forall P l -> filter P l = l.
Proof.
  induction 1 as [|x l Hx _ IH]; [reflexivity|].
  rewrite filter_cons_True by exact Hx. rewrite IH. reflexivity.
Qed.

Lemma Forall_sublist {A : Type} (P : A -> Prop) (l1 l2 : list A) :
  l1 `sublist_of` l2 -> Forall P l2 -> Forall P l1.
Proof.
  intros Hsub H2. rewrite Forall_forall in H2. rewrite Forall_forall.
  intros x Hx. apply H2. eapply elem_of_sublist; eassumption.
Qed.

Section SummaryFacts.

Context (W : World).

(** The sentences picked inside [summarize_text], by ranking or, when the
    ranking raises, as the leading sentences: a sublist of the document of
    the requested size. *)
Lemma picked_sentences (text : string) (k : Z) (doc : list string) :
  document_sentences W text = Ret doc ->
  exists sel,
    pick_sentences W text k = Ret sel
    /\ sel `sublist_of` doc
    /\ ((0 <= k)%Z ->
        length sel = Z.to_nat (Z.min k (Z.of_nat (length doc)))).
Proof.
  intros Hdoc. unfold pick_sentences. rewrite Hdoc. cbn.
  destruct doc as [|s doc]; cbn [text_rank].
  - exists []. cbn. split; [reflexivity|]. split; [constructor|].
    intros Hk. cbn. lia.
  - destruct (rate_sentences W (s :: doc)) as [rate|e]; cbn.
    + eexists. split; [reflexivity|].
      split; [apply get_best_sentences_sublist|].
      intros Hk. apply (get_best_sentences_length W rate (s :: doc) k Hk).
    + eexists. split; [reflexivity|].
      split; [apply slice_to_sublist|].
      intros Hk. apply (slice_to_length (s :: doc) k Hk).
Qed.

Lemma summary_sentences_empty (k : Z) : summary_sentences W "" k = Ret [].
Proof. reflexivity. Qed.

Lemma summarize_text_render (text : string) (k : Z) (sents : list string) :
  summary_sentences W text k = Ret sents ->
  summarize_text W text k = Ret (join LF (bullet <$> sents)).
Proof.
  intros H. unfold summarize_text. rewrite H. cbn.
  destruct sents; reflexivity.
Qed.

End SummaryFacts.

(** C4, as stated, fails at [k = 0]: a document of three sentences yields no
    sentence although it is not empty. With the count [-1] the same
    document yields two sentences, which is not [min k n] either. *)
Lemma summary_of_zero_sentences :
  let text := "Bonjour le monde. Ceci est un test! Fin" in
  document_sentences RefWorld.offline text
    = Ret ["Bonjour le monde."; "Ceci est un test!"; "Fin"]
  /\ summary_sentences RefWorld.offline text 0 = Ret []
  /\ summarize_text RefWorld.offline text 0 = Ret ""
  /\ summary_sentences RefWorld.offline text (-1)
     = Ret ["Bonjour le monde"; "Ceci est un test!"].
Proof. vm_compute. repeat split; reflexivity. Qed.

(** C4, amended: for every text that the parser splits into [n] sentences
    and every count [k >= 0], [summarize_text] yields at most [min k n]
    sentences, and exactly [min k n] when each of the [n] sentences holds a
    character that is not whitespace and the empty text has no sentence
    (a blank sentence is dropped by the test [if s.strip()], and the empty
    text is answered before it is parsed); it then yields none only when
    [n = 0] or [k = 0]. *)
Theorem summary_sentence_count
  (W : World) (text : string) (k : Z) (doc : list string) :
  (0 <= k)%Z ->
  nlp_setup W = Ret tt ->
  document_sentences W text = Ret doc ->
  exists sents,
    summary_sentences W text k = Ret sents
    /\ summarize_text W text k = Ret (join LF (bullet <$> sents))
    /\ (length sents <= Z.to_nat (Z.min k (Z.of_nat (length doc))))%nat
    /\ (Forall (fun s => nonblank s = true) doc ->
        (text = "" -> doc = []) ->
        length sents = Z.to_nat (Z.min k (Z.of_nat (length doc)))
        /\ (length sents = 0%nat -> length doc = 0%nat \/ k = 0%Z)).
Proof.
  intros Hk Hnlp Hdoc.
  assert (Hs : exists sents,
             summary_sentences W text k = Ret sents
             /\ (length sents <= Z.to_nat (Z.min k (Z.of_nat (length doc))))%nat
             /\ (Forall (fun s => nonblank s = true) doc ->
                 (text = "" -> doc = []) ->
                 length sents = Z.to_nat (Z.min k (Z.of_nat (length doc))))).
  { destruct text as [|c text].
    - exists []. split; [reflexivity|]. split; [cbn; lia|].
      intros _ Hempty. rewrite (Hempty eq_refl). cbn. lia.
    - destruct (picked_sentences W (String c text) k doc Hdoc)
        as (sel & Hsel & Hsub & Hlen).
      unfold summary_sentences. cbn [truthy]. rewrite Hnlp, Hsel.
      eexists. split; [reflexivity|]. rewrite length_fmap. split.
      + rewrite <- (Hlen Hk). apply length_filter.
      + intros Hvis _.
        rewrite filter_all by (eapply Forall_sublist; eassumption).
        apply Hlen, Hk. }
  destruct Hs as (sents & Hs & Hle & Heq).
  exists sents. split; [exact Hs|].
  split; [apply summarize_text_render, Hs|].
  split; [exact Hle|].
  intros Hvis Hempty. specialize (Heq Hvis Hempty).
  split; [exact Heq|]. lia.
Qed.

(** The scenario of the specification: four sentences requested from a
    document of two. *)
Lemma summary_sentence_count_witness :
  exists sents,
    summary_sentences RefWorld.offline "Premier point. Second point." 4 = Ret sents
    /\ summarize_text RefWorld.offline "Premier point. Second point." 4
       = Ret (join LF (bullet <$> sents))
    /\ length sents = 2%nat.
Proof.
  destruct (summary_sentence_count RefWorld.offline
              "Premier point. Second point." 4
              ["Premier point."; "Second point."])
    as (sents & Hs & Hout & _ & Heq).
  - lia.
  - reflexivity.
  - vm_compute. reflexivity.
  - exists sents. split; [exact Hs|]. split; [exact Hout|].
    apply Heq; [repeat constructor | discriminate].
Defined.

(** C5: for every text and count, the sentences [summarize_text] emits are
    sentences of the document in document order, whatever their ratings:
    the cleaned members of a sublist of the document, one bullet each. *)
Theorem summary_keeps_document_order
  (W : World) (text : string) (k : Z) (doc : list string) :
  nlp_setup W = Ret tt ->
  document_sentences W text = Ret doc ->
  exists sel,
    sel `sublist_of` doc
    /\ summary_sentences W text k = Ret (clean_sentence <$> sel)
    /\ summarize_text W text k
       = Ret (join LF (bullet <$> (clean_sentence <$> sel))).
Proof.
  intros Hnlp Hdoc.
  assert (Hs : exists sel,
             sel `sublist_of` doc
             /\ summary_sentences W text k = Ret (clean_sentence <$> sel)).
  { destruct text as [|c text].
    - exists []. split; [apply sublist_nil_l | reflexivity].
    - destruct (picked_sentences W (String c text) k doc Hdoc)
        as (sel & Hsel & Hsub & _).
      exists (filter (fun s => nonblank s = true) sel).
      split; [etrans; [apply sublist_filter; apply _ | exact Hsub]|].
      unfold summary_sentences. cbn [truthy]. rewrite Hnlp, Hsel.
      reflexivity. }
  destruct Hs as (sel & Hsub & Hs).
  exists sel. split; [exact Hsub|]. split; [exact Hs|].
  apply summarize_text_render, Hs.
Qed.

(** The longest sentence is rated best, yet the two best come out in the
    order of the text. *)
Lemma summary_keeps_document_order_witness :
  exists sel,
    sel `sublist_of` ["Court."; "Une phrase nettement plus longue."; "Moyenne ici."]
    /\ summary_sentences RefWorld.offline
         "Court. Une phrase nettement plus longue. Moyenne ici." 2
       = Ret (clean_sentence <$> sel)
    /\ summarize_text RefWorld.offline
         "Court. Une phrase nettement plus longue. Moyenne ici." 2
       = Ret (join LF (bullet <$> (clean_sentence <$> sel))).
Proof.
  apply (summary_keeps_document_order RefWorld.offline
           "Court. Une phrase nettement plus longue. Moyenne ici." 2).
  - reflexivity.
  - vm_compute. reflexivity.
Defined.

Example summary_in_text_order :
  summary_sentences RefWorld.offline
    "Court. Une phrase nettement plus longue. Moyenne ici." 2
  = Ret ["Une phrase nettement plus longue"; "Moyenne ici"].
Proof. vm_compute. reflexivity. Qed.

(** ** Facts about the history *)

Section HistoryFacts.

Lemma history_inv_init (history : list HistoryEntry) :
  history_inv {| history_entries := history;
                 known_ids := list_to_set (h_uid <$> history);
                 updated_history := false |}.
Proof. reflexivity. Qed.

Lemma known_ids_elem_of (st : HistoryState) (u : string) :
  history_inv st -> u ∈ known_ids st <-> u ∈ h_uid <$> history_entries st.
Proof. intros ->. apply elem_of_list_to_set. Qed.

Lemma append_history_inv (st : HistoryState) (res : Result) :
  history_inv st -> history_inv (append_history st res).
Proof.
  intros Hinv. unfold append_history.
  destruct (decide (it_uid (res_item res) ∈ known_ids st)); [exact Hinv|].
  unfold history_inv in *. cbn.
  rewrite Hinv, fmap_app, list_to_set_app_L. cbn.
  rewrite (right_id_L ∅ (∪)). apply (comm_L (∪)).
Qed.

Lemma fold_append_history_inv (rs : list Result) (st : HistoryState) :
  history_inv st -> history_inv (fold_left append_history rs st).
Proof.
  revert st. induction rs as [|r rs IH]; intros st Hinv; [exact Hinv|].
  cbn. apply IH, append_history_inv, Hinv.
Qed.

Lemma merge_history_inv (history : list HistoryEntry) (rs : list Result) :
  history_inv (merge_history history rs).
Proof. apply fold_append_history_inv, history_inv_init. Qed.

(** One turn of the loop, read on the list alone. *)
Lemma append_history_entries (st : HistoryState) (res : Result) :
  history_inv st ->
  history_entries (append_history st res) =
  if decide (res_uid res ∈ h_uid <$> history_entries st)
  then history_entries st
  else (history_entries st ++ [history_entry_of res])%list.
Proof.
  intros Hinv. unfold append_history, res_uid.
  destruct (decide (it_uid (res_item res) ∈ known_ids st)) as [Hin|Hout];
    [apply (known_ids_elem_of _ _ Hinv) in Hin
    |rewrite (known_ids_elem_of _ _ Hinv) in Hout];
    destruct (decide (it_uid (res_item res) ∈ h_uid <$> history_entries st));
    try reflexivity; contradiction.
Qed.

Lemma merge_history_snoc (history : list HistoryEntry) (rs : list Result)
  (res : Result) :
  merge_history history (rs ++ [res])
  = append_history (merge_history history rs) res.
Proof. unfold merge_history. rewrite fold_left_app. reflexivity. Qed.

Lemma append_history_prefix (st : HistoryState) (res : Result) :
  history_entries st `prefix_of` history_entries (append_history st res).
Proof.
  unfold append_history.
  destruct (decide (it_uid (res_item res) ∈ known_ids st)); cbn;
    [reflexivity | apply prefix_app_r; reflexivity].
Qed.

Lemma fold_append_history_prefix (rs : list Result) (st : HistoryState) :
  history_entries st
  `prefix_of` history_entries (fold_left append_history rs st).
Proof.
  revert st. induction rs as [|r rs IH]; intros st; [reflexivity|].
  cbn. etrans; [apply append_history_prefix | apply IH].
Qed.

Lemma append_history_nodup (st : HistoryState) (res : Result) :
  history_inv st ->
  NoDup (h_uid <$> history_entries st) ->
  NoDup (h_uid <$> history_entries (append_history st res)).
Proof.
  intros Hinv Hnd. rewrite (append_history_entries _ _ Hinv).
  destruct (decide (res_uid res ∈ h_uid <$> history_entries st)) as [|Hout];
    [exact Hnd|].
  rewrite fmap_app. apply NoDup_app. split; [exact Hnd|].
  split; [|apply NoDup_singleton].
  intros u Hu Hu'. cbn in Hu'. apply list_elem_of_singleton in Hu'.
  subst u. apply Hout. exact Hu.
Qed.

Lemma fold_append_history_nodup (rs : list Result) (st : HistoryState) :
  history_inv st ->
  NoDup (h_uid <$> history_entries st) ->
  NoDup (h_uid <$> history_entries (fold_left append_history rs st)).
Proof.
  revert st. induction rs as [|r rs IH]; intros st Hinv Hnd; [exact Hnd|].
  cbn. apply IH; [apply append_history_inv | apply append_history_nodup];
    assumption.
Qed.

(** Without an update the list is the one that was loaded. *)
Lemma fold_append_history_not_updated (rs : list Result) (st : HistoryState) :
  updated_history (fold_left append_history rs st) = false ->
  history_entries (fold_left append_history rs st) = history_entries st.
Proof.
  revert st. induction rs as [|r rs IH]; intros st Hup; [reflexivity|].
  cbn in *. rewrite (IH _ Hup).
  unfold append_history.
  destruct (decide (it_uid (res_item r) ∈ known_ids st)); [reflexivity|].
  exfalso. clear IH.
  assert (Htrue : forall rs st, updated_history st = true ->
            updated_history (fold_left append_history rs st) = true).
  { clear. induction rs as [|r rs IH]; intros st Hst; [exact Hst|].
    cbn. apply IH. unfold append_history.
    destruct (decide (it_uid (res_item r) ∈ known_ids st)); [exact Hst|].
    reflexivity. }
  unfold append_history in Hup.
  destruct (decide (it_uid (res_item r) ∈ known_ids st)); [contradiction|].
  rewrite Htrue in Hup by reflexivity. discriminate.
Qed.

Lemma first_occurrences_filter (P : string -> Prop)
  `{!forall x, Decision (P x)} (l : list string) :
  first_occurrences (filter P l) = filter P (first_occurrences l).
Proof.
  induction l as [|u l IH]; [reflexivity|].
  rewrite filter_cons. destruct (decide (P u)) as [Hu|Hu].
  - cbn [first_occurrences]. rewrite filter_cons_True by exact Hu.
    f_equal. rewrite IH, !list_filter_filter.
    apply list_filter_iff. intros x. tauto.
  - cbn [first_occurrences]. rewrite filter_cons_False by exact Hu.
    rewrite IH, list_filter_filter.
    apply list_filter_iff. intros x. split; [|tauto].
    intros Hx. split; [exact Hx|]. intros ->. contradiction.
Qed.

Lemma first_occurrences_elem_of (l : list string) (u : string) :
  u ∈ first_occurrences l <-> u ∈ l.
Proof.
  induction l as [|v l IH]; [reflexivity|].
  cbn [first_occurrences]. rewrite !elem_of_cons, list_elem_of_filter, IH.
  destruct (decide (u = v)); tauto.
Qed.

Lemma first_occurrences_nodup (l : list string) : NoDup (first_occurrences l).
Proof.
  induction l as [|v l IH]; [constructor|].
  cbn [first_occurrences]. constructor.
  - rewrite list_elem_of_filter. tauto.
  - apply NoDup_filter, IH.
Qed.

(** The uids of the history after the loop: those it had, followed by the
    new uids of the results in the order in which they first occur. *)
Lemma fold_append_history_uids (rs : list Result) (st : HistoryState) :
  history_inv st ->
  h_uid <$> history_entries (fold_left append_history rs st)
  = ((h_uid <$> history_entries st)
     ++ first_occurrences
          (filter (fun u => u ∉ h_uid <$> history_entries st) (res_uid <$> rs)))%list.
Proof.
  revert st. induction rs as [|r rs IH]; intros st Hinv.
  - cbn. rewrite app_nil_r. reflexivity.
  - cbn [fold_left]. rewrite IH by (apply append_history_inv, Hinv).
    rewrite (append_history_entries _ _ Hinv), fmap_cons.
    destruct (decide (res_uid r ∈ h_uid <$> history_entries st)) as [Hin|Hout].
    + rewrite filter_cons_False by (intros H; apply H, Hin). reflexivity.
    + rewrite filter_cons_True by exact Hout.
      cbn [first_occurrences]. rewrite fmap_app. cbn [fmap list_fmap].
      rewrite <- app_assoc. cbn [app]. do 2 f_equal.
      rewrite <- first_occurrences_filter. f_equal.
      rewrite list_filter_filter. apply list_filter_iff. intros x.
      rewrite elem_of_app, list_elem_of_singleton. tauto.
Qed.

End HistoryFacts.

(** ** Facts about a run *)

Section RunFacts.

Context (W : World).

Lemma collect_entry_contribution (seen0 : gset string) (items : list Item)
  (entry : FeedEntry) :
  collect_entry W seen0 items entry
  = Ret (items ++ contribution W seen0 entry)%list.
Proof.
  unfold collect_entry, contribution, entry_uid, item_of_entry, entry_uid,
    entry_target.
  destruct (truthy (strip (e_link entry))); [|rewrite app_nil_r; reflexivity].
  destruct (extract_original_url_returns W (strip (e_link entry))) as [orig Ho].
  rewrite Ho. cbn.
  destruct (decide (hash_id W (or_ orig (strip (e_link entry))) ∈ seen0));
    [rewrite app_nil_r|]; reflexivity.
Qed.

Lemma for_each_collect_entry (seen0 : gset string) (entries : list FeedEntry)
  (items : list Item) :
  for_each (collect_entry W seen0) entries items
  = Ret (items ++ flat_map (contribution W seen0) entries)%list.
Proof.
  revert items. induction entries as [|entry entries IH]; intros items.
  - cbn. rewrite app_nil_r. reflexivity.
  - cbn [for_each flat_map]. rewrite collect_entry_contribution. cbn.
    rewrite IH, app_assoc. reflexivity.
Qed.

(** The uids collected from a list of entries: those of the entries with a
    link, minus the uids of the set loaded at the start; nothing is removed
    because it was collected a moment before. *)
Lemma contribution_uids (seen0 : gset string) (entries : list FeedEntry) :
  it_uid <$> flat_map (contribution W seen0) entries
  = filter (fun u => u ∉ seen0)
      (entry_uid W <$>
       filter (fun entry => truthy (strip (e_link entry)) = true) entries).
Proof.
  induction entries as [|entry entries IH]; [reflexivity|].
  cbn [flat_map]. rewrite fmap_app, IH, filter_cons. unfold contribution.
  destruct (decide (truthy (strip (e_link entry)) = true)) as [Hl|Hl].
  - rewrite Hl, fmap_cons, filter_cons.
    destruct (decide (entry_uid W entry ∈ seen0)) as [Hin|Hout].
    + rewrite decide_False by (intros H; apply H, Hin). reflexivity.
    + rewrite decide_True by exact Hout. reflexivity.
  - apply not_true_is_false in Hl. rewrite Hl. reflexivity.
Qed.

Lemma collect_feed_contribution (cfg : Config) (seen0 : gset string)
  (items : list Item) (feed_url : string) :
  collect_feed W cfg seen0 items feed_url
  = match feedparser_parse W feed_url with
    | Ret entries =>
        Ret (items ++ flat_map (contribution W seen0)
                        (slice_to entries (max_per_feed cfg)))%list
    | Raise e => Raise e
    end.
Proof.
  unfold collect_feed.
  destruct (feedparser_parse W feed_url) as [entries|e]; cbn;
    [apply for_each_collect_entry | reflexivity].
Qed.

(** What the feeds of a run give, feed after feed. *)
Lemma for_each_collect_feed (cfg : Config) (seen0 : gset string)
  (fs : list string) (items0 items : list Item) :
  for_each (collect_feed W cfg seen0) fs items0 = Ret items ->
  Forall (fun feed_url => returns (feedparser_parse W feed_url)) fs
  /\ items
     = (items0
        ++ flat_map (contribution W seen0)
             (flat_map
                (fun feed_url =>
                   match feedparser_parse W feed_url with
                   | Ret entries => slice_to entries (max_per_feed cfg)
                   | Raise _ => []
                   end) fs))%list.
Proof.
  revert items0. induction fs as [|f fs IH]; intros items0 H.
  - cbn in H. injection H; intros <-. split; [constructor|].
    cbn. rewrite app_nil_r. reflexivity.
  - cbn [for_each] in H. rewrite collect_feed_contribution in H.
    destruct (feedparser_parse W f) as [entries|e] eqn:Hf;
      [|cbn in H; discriminate].
    cbn in H. apply IH in H as [Hall ->].
    split; [constructor; [exists entries; exact Hf | exact Hall]|].
    cbn [flat_map]. rewrite Hf, flat_map_app, app_assoc. reflexivity.
Qed.

Lemma filter_flat_map {A B : Type} (P : B -> Prop) `{!forall x, Decision (P x)}
  (f : A -> list B) (l : list A) :
  filter P (flat_map f l) = flat_map (fun x => filter P (f x)) l.
Proof.
  induction l as [|x l IH]; [reflexivity|].
  cbn [flat_map]. rewrite filter_app, IH. reflexivity.
Qed.

Lemma process_item_keeps_item (cfg : Config) (it : Item) (r : Result) :
  process_item W cfg it = Ret r -> res_item r = it.
Proof.
  unfold process_item.
  destruct (fetch_text W (it_link it) (timeout cfg)) as [full|e]; [|discriminate].
  cbn.
  destruct (if truthy (base_text full (it_hint it) (it_title it))
            then summarize_text W (base_text full (it_hint it) (it_title it))
                   (sentences cfg)
            else Ret "") as [summary|e]; [|discriminate].
  cbn. intros [= <-]. reflexivity.
Qed.

Lemma processed_cons (cfg : Config) (it : Item) (items : list Item) :
  processed W cfg (it :: items)
  = match process_item W cfg it with
    | Ret r => r :: processed W cfg items
    | Raise _ => processed W cfg items
    end.
Proof.
  unfold processed. cbn [omap list_omap].
  destruct (process_item W cfg it); reflexivity.
Qed.

(** The loop over the items, read from any starting state. *)
Lemma fold_process_step (cfg : Config) (items : list Item) (st : LoopState) :
  let st' := fold_left (process_step W cfg) items st in
  results st' = (results st ++ processed W cfg items)%list
  /\ fetched st' = (fetched st ++ (it_link <$> items))%list
  /\ seen st' = list_to_set (res_uid <$> processed W cfg items) ∪ seen st.
Proof.
  revert st. induction items as [|it items IH]; intros st; cbn zeta.
  - cbn. rewrite !app_nil_r. split; [reflexivity|]. split; [reflexivity|].
    rewrite (left_id_L ∅ (∪)). reflexivity.
  - cbn [fold_left]. destruct (IH (process_step W cfg st it)) as (Hr & Hf & Hs).
    rewrite Hr, Hf, Hs. clear IH Hr Hf Hs.
    rewrite processed_cons. unfold process_step.
    destruct (process_item W cfg it) as [r|e] eqn:Hp; cbn.
    + rewrite <- !app_assoc. split; [reflexivity|]. split; [reflexivity|].
      replace (res_uid r) with (it_uid it)
        by (unfold res_uid; rewrite (process_item_keeps_item _ _ _ Hp);
            reflexivity).
      rewrite (assoc_L (∪)). f_equal. apply (comm_L (∪)).
    + rewrite <- !app_assoc. split; [reflexivity|]. split; reflexivity.
Qed.

Lemma process_items_spec (cfg : Config) (seen0 : gset string)
  (items : list Item) :
  let st := process_items W cfg seen0 items in
  results st = processed W cfg items
  /\ fetched st = it_link <$> items
  /\ seen st = list_to_set (res_uid <$> processed W cfg items) ∪ seen0.
Proof. apply (fold_process_step cfg items). Qed.

End RunFacts.

Section MainFacts.

Context (W : World).

(** What a completed run has done, step by step. *)
Lemma main_completed (cfg : Config) (d : Disk) (r : Run) :
  main W cfg d = Completed r ->
  let seen0 := load_seen (seen_json d) in
  let hs := merge_history (load_history (all_articles_json d)) (run_results r) in
  feeds cfg <> []
  /\ Forall (fun feed_url => returns (feedparser_parse W feed_url)) (feeds cfg)
  /\ run_items r = flat_map (contribution W seen0) (read_entries W cfg)
  /\ run_results r = processed W cfg (run_items r)
  /\ run_fetched r = it_link <$> run_items r
  /\ run_seen r = list_to_set (res_uid <$> run_results r) ∪ seen0
  /\ run_history r = history_entries hs
  /\ run_seen_json r = save_seen d (run_seen r)
  /\ run_all_articles_json r
     = (if updated_history hs || negb (file_exists (all_articles_json d))
        then save_history d (history_entries hs)
        else all_articles_json d).
Proof.
  unfold main. intros H.
  destruct (feeds cfg) as [|f fs] eqn:Hfeeds; [discriminate|].
  rewrite <- Hfeeds in *.
  destruct (for_each (collect_feed W cfg (load_seen (seen_json d))) (feeds cfg) [])
    as [items|e] eqn:Hitems; [|discriminate].
  apply for_each_collect_feed in Hitems as [Hall Hitems]. cbn [app] in Hitems.
  destruct (process_items_spec W cfg (load_seen (seen_json d)) items)
    as (Hres & Hfetched & Hseen).
  destruct (reports_writable d); [|discriminate].
  injection H; intros <-. cbn.
  rewrite Hres, Hfetched, Hseen, Hitems.
  repeat split; try reflexivity; try assumption.
  rewrite Hfeeds. discriminate.
Qed.

End MainFacts.

(** The file [all_articles.json] lists no uid twice after a run if it did
    not before. *)
Lemma main_history_file_lists_once (W : World) (cfg : Config) (d : Disk) (r : Run) :
  main W cfg d = Completed r ->
  lists_once (all_articles_json d) ->
  lists_once (run_all_articles_json r).
Proof.
  intros H Hd.
  destruct (main_completed W cfg d r H) as (_ & _ & _ & _ & _ & _ & _ & _ & Hf).
  rewrite Hf. clear Hf.
  assert (Hnd : NoDup (h_uid <$> history_entries
                         (merge_history (load_history (all_articles_json d))
                                        (run_results r)))).
  { apply fold_append_history_nodup; [apply history_inv_init|].
    cbn. destruct (all_articles_json d); cbn; [constructor..|exact Hd]. }
  destruct (_ || _); [|exact Hd].
  unfold save_history. destruct (all_articles_json_writable d); [exact Hnd|exact Hd].
Qed.

(** C7: the history loop appends the entry of a result exactly when its uid
    is not among the uids of the history built so far; whatever the history
    and the results, the history it started from stays as a prefix, entry
    for entry; the uids that follow are the new uids of the results in the
    order in which they first occur; so a history that lists each uid once
    still does after the loop. *)
Theorem history_append_only (history : list HistoryEntry) (rs : list Result) :
  let merged := history_entries (merge_history history rs) in
  (forall res,
     history_entries (merge_history history (rs ++ [res]))
     = if decide (res_uid res ∈ h_uid <$> merged) then merged
       else (merged ++ [history_entry_of res])%list)
  /\ history `prefix_of` merged
  /\ h_uid <$> merged
     = ((h_uid <$> history)
        ++ first_occurrences
             (filter (fun u => u ∉ h_uid <$> history) (res_uid <$> rs)))%list
  /\ (NoDup (h_uid <$> history) -> NoDup (h_uid <$> merged)).
Proof.
  cbn zeta. split; [|split; [|split]].
  - intros res. rewrite merge_history_snoc.
    apply append_history_entries, merge_history_inv.
  - apply (fold_append_history_prefix rs).
  - apply (fold_append_history_uids rs), history_inv_init.
  - intros Hnd. apply fold_append_history_nodup; [apply history_inv_init|].
    exact Hnd.
Qed.

(** A known article, a new one twice, and another new one: one entry is
    appended per new uid, in the order a, then b. *)
Lemma history_append_only_witness :
  let rs := [Demo.result_of "a/moc.elpm" "Connu"; Demo.result_of "b" "Premier";
             Demo.result_of "a" "Second"; Demo.result_of "b" "Encore"] in
  h_uid <$> history_entries (merge_history [Demo.old_entry] rs)
    = ["a/moc.elpm"; "b"; "a"]
  /\ NoDup (h_uid <$> history_entries (merge_history [Demo.old_entry] rs)).
Proof.
  cbv zeta. split; [vm_compute; reflexivity|].
  apply (proj2 (proj2 (proj2 (history_append_only [Demo.old_entry]
    [Demo.result_of "a/moc.elpm" "Connu"; Demo.result_of "b" "Premier";
     Demo.result_of "a" "Second"; Demo.result_of "b" "Encore"])))).
  cbn. apply NoDup_singleton.
Defined.

(** The entries a run appends to the history carry uids of its results. *)
Lemma merge_history_new_uids (history : list HistoryEntry) (rs : list Result) :
  exists new,
    history_entries (merge_history history rs) = (history ++ new)%list
    /\ h_uid <$> new
       = first_occurrences
           (filter (fun u => u ∉ h_uid <$> history) (res_uid <$> rs)).
Proof.
  destruct (fold_append_history_prefix rs
              {| history_entries := history;
                 known_ids := list_to_set (h_uid <$> history);
                 updated_history := false |}) as [new Hnew].
  cbn in Hnew. exists new. split; [exact Hnew|].
  pose proof (fold_append_history_uids rs _ (history_inv_init history)) as Hu.
  cbn in Hu. fold (merge_history history rs) in Hu.
  unfold merge_history in Hu at 1. rewrite Hnew, fmap_app in Hu.
  apply app_inv_head in Hu. exact Hu.
Qed.

(** C6, as stated, fails. A first run records an article; [seen.json] then
    becomes unreadable and is read as the empty set; a second run finds no
    entry in its feeds and completes: the history still holds the article,
    the set of seen uids is empty. *)
Lemma history_outlives_unreadable_seen :
  exists r1 r2,
    main Demo.online Demo.cfg Demo.fresh = Completed r1
    /\ main RefWorld.offline Demo.cfg (Demo.seen_lost (run_all_articles_json r1))
       = Completed r2
    /\ "a/moc.elpm" ∈ h_uid <$> run_history r2
    /\ "a/moc.elpm" ∉ run_seen r2.
Proof.
  eexists. eexists.
  split; [vm_compute; reflexivity|].
  split; [vm_compute; reflexivity|].
  split; [cbn; apply list_elem_of_here|].
  cbn. apply not_elem_of_empty.
Qed.

(** C6, amended: after every completed run, every uid the run has appended
    to the history is in the set of seen uids; so the uids of the history
    are a subset of that set whenever the uids of the history loaded at the
    start were in the set loaded at the start. A uid of the loaded history
    that was not in the loaded set and is not the uid of a result of the run
    is still in the history and outside the set; when [seen.json] cannot be
    read the loaded set is empty, so this holds of every uid of the loaded
    history that is not the uid of a result. *)
Theorem history_within_seen (W : World) (cfg : Config) (d : Disk) (r : Run) :
  main W cfg d = Completed r ->
  (exists new,
     run_history r = (load_history (all_articles_json d) ++ new)%list
     /\ forall u, u ∈ h_uid <$> new -> u ∈ run_seen r)
  /\ ((forall u, u ∈ h_uid <$> load_history (all_articles_json d) ->
                 u ∈ load_seen (seen_json d)) ->
      forall u, u ∈ h_uid <$> run_history r -> u ∈ run_seen r)
  /\ (forall u,
        u ∈ h_uid <$> load_history (all_articles_json d) ->
        u ∉ load_seen (seen_json d) ->
        u ∉ res_uid <$> run_results r ->
        u ∈ h_uid <$> run_history r /\ u ∉ run_seen r)
  /\ (seen_json d = Unreadable ->
      forall u,
        u ∈ h_uid <$> load_history (all_articles_json d) ->
        u ∉ res_uid <$> run_results r ->
        u ∈ h_uid <$> run_history r /\ u ∉ run_seen r).
Proof.
  intros H.
  destruct (main_completed W cfg d r H)
    as (_ & _ & _ & _ & _ & Hseen & Hhist & _).
  destruct (merge_history_new_uids (load_history (all_articles_json d))
              (run_results r)) as (new & Hnew & Hu).
  rewrite Hnew in Hhist.
  assert (Hin : forall u, u ∈ h_uid <$> new -> u ∈ run_seen r).
  { intros u. rewrite Hu, first_occurrences_elem_of, list_elem_of_filter.
    intros [_ Hin]. rewrite Hseen. apply elem_of_union_l.
    apply elem_of_list_to_set, Hin. }
  assert (Hout : forall u,
             u ∈ h_uid <$> load_history (all_articles_json d) ->
             u ∉ load_seen (seen_json d) ->
             u ∉ res_uid <$> run_results r ->
             u ∈ h_uid <$> run_history r /\ u ∉ run_seen r).
  { intros u Hold Hloaded Hres. split.
    - rewrite Hhist, fmap_app. apply elem_of_app. left. exact Hold.
    - rewrite Hseen, elem_of_union, elem_of_list_to_set. tauto. }
  split; [exists new; split; assumption|].
  split; [|split; [exact Hout|]].
  - intros Hloaded u. rewrite Hhist, fmap_app, elem_of_app.
    intros [Hold|Hnew']; [|apply Hin, Hnew'].
    rewrite Hseen. apply elem_of_union_r, Hloaded, Hold.
  - intros Hunreadable u Hold Hres. apply Hout; [exact Hold| |exact Hres].
    rewrite Hunreadable. apply not_elem_of_empty.
Qed.

(** A run that starts from the state of an earlier run and records a new
    article keeps every uid of the history in the set of seen uids; a run
    that starts with an unreadable [seen.json] and finds nothing in its
    feeds leaves the recorded article outside it. *)
Lemma history_within_seen_witness :
  (exists r,
     main Demo.online Demo.cfg Demo.earlier = Completed r
     /\ h_uid <$> run_history r = ["z/moc.elpm"; "a/moc.elpm"]
     /\ forall u, u ∈ h_uid <$> run_history r -> u ∈ run_seen r)
  /\ (exists r,
        main RefWorld.offline Demo.cfg (Demo.seen_lost (Stored [Demo.old_entry]))
        = Completed r
        /\ "a/moc.elpm" ∈ h_uid <$> run_history r
        /\ "a/moc.elpm" ∉ run_seen r).
Proof.
  split.
  - assert (H : exists r,
               main Demo.online Demo.cfg Demo.earlier = Completed r
               /\ h_uid <$> run_history r = ["z/moc.elpm"; "a/moc.elpm"])
      by (vm_compute; eexists; split; reflexivity).
    destruct H as (r & Hr & Hh). exists r. split; [exact Hr|].
    split; [exact Hh|].
    apply (proj1 (proj2 (history_within_seen Demo.online Demo.cfg Demo.earlier
                           r Hr))).
    intros u Hu. cbn in Hu. apply list_elem_of_singleton in Hu. subst u.
    apply (proj2 (elem_of_list_to_set (C := gset string)
                    "z/moc.elpm" ["z/moc.elpm"])).
    left.
  - assert (H : exists r,
               main RefWorld.offline Demo.cfg
                    (Demo.seen_lost (Stored [Demo.old_entry])) = Completed r
               /\ run_results r = [])
      by (vm_compute; eexists; split; reflexivity).
    destruct H as (r & Hr & Hres). exists r. split; [exact Hr|].
    apply (proj2 (proj2 (proj2 (history_within_seen RefWorld.offline Demo.cfg
                                  (Demo.seen_lost (Stored [Demo.old_entry]))
                                  r Hr)))).
    + reflexivity.
    + cbn. left.
    + rewrite Hres. intros Hin. inversion Hin.
Defined.

(** C10, as stated, fails: the same alert sits in two feeds and its uid is
    not in the loaded set; it is collected and fetched twice, but extraction
    raises both times, and the uid does not appear in the results at all. *)
Lemma duplicate_uid_missing_from_results :
  exists r,
    main Demo.extraction_broken Demo.cfg Demo.fresh = Completed r
    /\ ("a/moc.elpm" ∉ load_seen (seen_json Demo.fresh))
    /\ occurrences "a/moc.elpm"
         (entry_uid Demo.extraction_broken
            <$> considered_entries Demo.extraction_broken Demo.cfg) = 2%nat
    /\ occurrences "a/moc.elpm" (it_uid <$> run_items r) = 2%nat
    /\ run_fetched r = ["https://example.com/a"; "https://example.com/a"]
    /\ run_results r = [].
Proof.
  eexists. split; [vm_compute; reflexivity|].
  split; [apply not_elem_of_empty|].
  vm_compute. repeat split; reflexivity.
Qed.

(** C10, amended: within a run the dedup test of the collecting loop reads
    only the set loaded at the start, so a uid outside that set is collected
    once per occurrence among the entries the run considers (of each feed
    the first [max_per_feed] entries, those with a link); [fetch_text] is
    called once per collected item; the results hold one entry per collected
    item whose fetch and summary raise nothing, hence one per occurrence
    when none raises; and the run appends each uid to the history at most
    once. *)
Theorem duplicate_uids_within_a_run (W : World) (cfg : Config) (d : Disk) (r : Run) :
  main W cfg d = Completed r ->
  (it_uid <$> run_items r
   = filter (fun u => u ∉ load_seen (seen_json d))
       (entry_uid W <$> considered_entries W cfg))
  /\ (forall u, u ∉ load_seen (seen_json d) ->
        occurrences u (it_uid <$> run_items r)
        = occurrences u (entry_uid W <$> considered_entries W cfg))
  /\ run_fetched r = it_link <$> run_items r
  /\ run_results r = processed W cfg (run_items r)
  /\ (Forall (fun it => returns (process_item W cfg it)) (run_items r) ->
      res_item <$> run_results r = run_items r)
  /\ (exists new,
        run_history r = (load_history (all_articles_json d) ++ new)%list
        /\ NoDup (h_uid <$> new))
  /\ (NoDup (h_uid <$> load_history (all_articles_json d)) ->
      NoDup (h_uid <$> run_history r)).
Proof.
  intros H.
  destruct (main_completed W cfg d r H)
    as (_ & _ & Hitems & Hres & Hfetched & _ & Hhist & _).
  assert (Huids : it_uid <$> run_items r
                  = filter (fun u => u ∉ load_seen (seen_json d))
                      (entry_uid W <$> considered_entries W cfg)).
  { rewrite Hitems. apply contribution_uids. }
  split; [exact Huids|].
  split.
  { intros u Hu. unfold occurrences. rewrite Huids, list_filter_filter.
    f_equal. apply list_filter_iff. intros v. split; [tauto|].
    intros ->. split; [reflexivity | exact Hu]. }
  split; [exact Hfetched|].
  split; [exact Hres|].
  split.
  { intros Hall. rewrite Hres. clear -Hall.
    induction Hall as [|it items [res Hit] _ IH]; [reflexivity|].
    rewrite processed_cons, Hit, fmap_cons, IH.
    rewrite (process_item_keeps_item W cfg it res Hit). reflexivity. }
  split.
  { destruct (merge_history_new_uids (load_history (all_articles_json d))
                (run_results r)) as (new & Hnew & Hu).
    exists new. split; [rewrite Hhist; exact Hnew|].
    rewrite Hu. apply first_occurrences_nodup. }
  intros Hnd. rewrite Hhist.
  apply fold_append_history_nodup; [apply history_inv_init | exact Hnd].
Qed.

(** With a working extractor the alert listed by two feeds is collected,
    fetched and summarized twice, and recorded once. *)
Lemma duplicate_uids_within_a_run_witness :
  exists r,
    main Demo.online Demo.cfg Demo.fresh = Completed r
    /\ res_uid <$> run_results r = ["a/moc.elpm"; "a/moc.elpm"]
    /\ run_fetched r = ["https://example.com/a"; "https://example.com/a"]
    /\ h_uid <$> run_history r = ["a/moc.elpm"]
    /\ res_item <$> run_results r = run_items r.
Proof.
  assert (H : exists r,
             main Demo.online Demo.cfg Demo.fresh = Completed r
             /\ res_uid <$> run_results r = ["a/moc.elpm"; "a/moc.elpm"]
             /\ run_fetched r = ["https://example.com/a"; "https://example.com/a"]
             /\ h_uid <$> run_history r = ["a/moc.elpm"]
             /\ Forall (fun it => returns (process_item Demo.online Demo.cfg it))
                       (run_items r)).
  { eexists. split; [vm_compute; reflexivity|].
    split; [reflexivity|]. split; [reflexivity|]. split; [reflexivity|].
    repeat constructor; eexists; vm_compute; reflexivity. }
  destruct H as (r & Hr & Hres & Hf & Hh & Hall).
  exists r. split; [exact Hr|]. split; [exact Hres|]. split; [exact Hf|].
  split; [exact Hh|].
  apply (proj1 (proj2 (proj2 (proj2 (proj2
           (duplicate_uids_within_a_run Demo.online Demo.cfg Demo.fresh r Hr)))))).
  exact Hall.
Defined.

(** ** Further facts about a run *)

Section RunExtras.

Context (W : World).

Lemma for_each_collect_feed_returns (cfg : Config) (seen0 : gset string)
  (fs : list string) (items0 : list Item) :
  Forall (fun feed_url => returns (feedparser_parse W feed_url)) fs ->
  returns (for_each (collect_feed W cfg seen0) fs items0).
Proof.
  intros Hall. revert items0.
  induction Hall as [|f fs [entries Hf] _ IH]; intros items0.
  - exists items0. reflexivity.
  - cbn [for_each]. rewrite collect_feed_contribution, Hf. cbn. apply IH.
Qed.

Lemma or_nonempty_r (a b : string) : b <> "" -> or_ a b <> "".
Proof. unfold or_. destruct a; cbn; [tauto | discriminate]. Qed.

Lemma truthy_nonempty (s : string) : truthy s = true <-> s <> "".
Proof. destruct s; cbn; split; congruence. Qed.

Lemma entry_target_nonempty (entry : FeedEntry) :
  truthy (strip (e_link entry)) = true -> entry_target W entry <> "".
Proof.
  intros Hl. apply truthy_nonempty in Hl. unfold entry_target.
  destruct (extract_original_url W (strip (e_link entry)));
    [apply or_nonempty_r|]; exact Hl.
Qed.

Lemma contribution_spec (seen0 : gset string) (entry : FeedEntry) (it : Item) :
  it ∈ contribution W seen0 entry ->
  it = item_of_entry W entry
  /\ truthy (strip (e_link entry)) = true
  /\ entry_uid W entry ∉ seen0.
Proof.
  unfold contribution.
  destruct (truthy (strip (e_link entry))); [|intros H; inversion H].
  destruct (decide (entry_uid W entry ∈ seen0)); [intros H; inversion H|].
  intros H. apply list_elem_of_singleton in H. auto.
Qed.

Lemma elem_of_flat_map {A B : Type} (f : A -> list B) (l : list A) (y : B) :
  y ∈ flat_map f l <-> exists x, x ∈ l /\ y ∈ f x.
Proof.
  rewrite !list_elem_of_In, in_flat_map.
  split; intros (x & Hx & Hy); exists x; rewrite ?list_elem_of_In in *; auto.
Qed.

Lemma processed_sublist (cfg : Config) (items : list Item) :
  res_item <$> processed W cfg items `sublist_of` items.
Proof.
  induction items as [|it items IH]; [constructor|].
  rewrite processed_cons.
  destruct (process_item W cfg it) as [r|e] eqn:Hp.
  - rewrite fmap_cons, (process_item_keeps_item W cfg it r Hp).
    apply sublist_skip, IH.
  - apply sublist_cons, IH.
Qed.

Lemma process_item_summary (cfg : Config) (it : Item) (r : Result) :
  process_item W cfg it = Ret r -> res_summary r <> "".
Proof.
  unfold process_item.
  destruct (fetch_text W (it_link it) (timeout cfg)) as [full|e]; [|discriminate].
  cbn.
  destruct (if truthy (base_text full (it_hint it) (it_title it))
            then summarize_text W (base_text full (it_hint it) (it_title it))
                   (sentences cfg)
            else Ret "") as [summary|e]; [|discriminate].
  cbn. intros [= <-]. cbn.
  destruct summary; cbn; discriminate.
Qed.

Lemma processed_elem_of (cfg : Config) (items : list Item) (r : Result) :
  r ∈ processed W cfg items ->
  exists it, it ∈ items /\ process_item W cfg it = Ret r.
Proof.
  induction items as [|it items IH]; [intros H; inversion H|].
  rewrite processed_cons.
  destruct (process_item W cfg it) as [r'|e] eqn:Hp.
  - intros [->|H]%elem_of_cons.
    + exists it. split; [left | exact Hp].
    + destruct (IH H) as (it' & Hin & Hit'). exists it'. split; [right|]; assumption.
  - intros H. destruct (IH H) as (it' & Hin & Hit').
    exists it'. split; [right|]; assumption.
Qed.

(** Raising the set of known uids removes the items it now contains. *)
Lemma contribution_larger_seen (seen0 seen1 : gset string)
  (entries : list FeedEntry) :
  seen0 ⊆ seen1 ->
  flat_map (contribution W seen1) entries
  = filter (fun it => it_uid it ∉ seen1)
           (flat_map (contribution W seen0) entries).
Proof.
  intros Hsub. induction entries as [|entry entries IH]; [reflexivity|].
  cbn [flat_map]. rewrite filter_app, <- IH. f_equal.
  unfold contribution.
  destruct (truthy (strip (e_link entry))); [|reflexivity].
  destruct (decide (entry_uid W entry ∈ seen1)) as [Hin1|Hout1].
  - destruct (decide (entry_uid W entry ∈ seen0)); [reflexivity|].
    rewrite filter_cons_False; [reflexivity|].
    cbn. intros H. apply H, Hin1.
  - destruct (decide (entry_uid W entry ∈ seen0)) as [Hin0|Hout0].
    + exfalso. apply Hout1, Hsub, Hin0.
    + rewrite filter_cons_True by exact Hout1. reflexivity.
Qed.

Lemma slice_to_length_le {A : Type} (l : list A) (k : Z) :
  (0 <= k)%Z -> (length (slice_to l k) <= Z.to_nat k)%nat.
Proof. intros Hk. rewrite slice_to_length by exact Hk. lia. Qed.

Lemma contribution_length (seen0 : gset string) (entries : list FeedEntry) :
  (length (flat_map (contribution W seen0) entries) <= length entries)%nat.
Proof.
  induction entries as [|entry entries IH]; [reflexivity|].
  cbn [flat_map]. rewrite length_app. cbn [length].
  assert (length (contribution W seen0 entry) <= 1)%nat; [|lia].
  unfold contribution.
  destruct (truthy (strip (e_link entry))); [|cbn; lia].
  destruct (decide (entry_uid W entry ∈ seen0)); cbn; lia.
Qed.

Lemma read_entries_length (cfg : Config) :
  (0 <= max_per_feed cfg)%Z ->
  (length (read_entries W cfg)
   <= length (feeds cfg) * Z.to_nat (max_per_feed cfg))%nat.
Proof.
  intros Hk. unfold read_entries.
  induction (feeds cfg) as [|f fs IH]; [reflexivity|].
  cbn [flat_map length]. rewrite length_app.
  assert (length (match feedparser_parse W f with
                  | Ret entries => slice_to entries (max_per_feed cfg)
                  | Raise _ => []
                  end) <= Z.to_nat (max_per_feed cfg))%nat; [|lia].
  destruct (feedparser_parse W f); [apply slice_to_length_le, Hk | cbn; lia].
Qed.

End RunExtras.

Lemma main_completes (W : World) (cfg : Config) (d : Disk) :
  feeds cfg <> [] ->
  Forall (fun feed_url => returns (feedparser_parse W feed_url)) (feeds cfg) ->
  reports_writable d = true ->
  exists r, main W cfg d = Completed r.
Proof.
  intros Hne Hall Hw. unfold main.
  destruct (for_each_collect_feed_returns W cfg (load_seen (seen_json d))
              (feeds cfg) [] Hall) as [items Hitems].
  destruct (feeds cfg) as [|f fs] eqn:Hf; [contradiction|].
  rewrite Hitems, Hw. eexists. reflexivity.
Qed.

Lemma demo_online_run :
  exists r, main Demo.online Demo.cfg Demo.fresh = Completed r.
Proof. vm_compute. eexists. reflexivity. Qed.

Lemma demo_broken_run :
  exists r, main Demo.extraction_broken Demo.cfg Demo.fresh = Completed r.
Proof. vm_compute. eexists. reflexivity. Qed.

(** X1: for a configuration already parsed and an output directory that
    exists, with state files that hold the expected JSON or cannot be read:
    whenever at least one feed is configured, every feed can be parsed and
    the reports can be written, the run completes, whatever fetching,
    extraction or summarizing raise for single items; its results are those
    of the items whose processing raised nothing. *)
Theorem run_survives_item_failures (W : World) (cfg : Config) (d : Disk) :
  feeds cfg <> [] ->
  Forall (fun feed_url => returns (feedparser_parse W feed_url)) (feeds cfg) ->
  reports_writable d = true ->
  exists r,
    main W cfg d = Completed r
    /\ (forall it res,
          it ∈ run_items r -> process_item W cfg it = Ret res ->
          res ∈ run_results r)
    /\ (forall it e,
          process_item W cfg it = Raise e ->
          forall res, res ∈ run_results r -> res_item res <> it).
Proof.
  intros Hne Hall Hw.
  destruct (main_completes W cfg d Hne Hall Hw) as [r Hr].
  exists r. split; [exact Hr|].
  destruct (main_completed W cfg d r Hr) as (_ & _ & _ & Hres & _).
  rewrite Hres. split.
  - intros it res Hin Hp. clear Hres.
    induction (run_items r) as [|it' items IH]; [inversion Hin|].
    rewrite processed_cons.
    apply elem_of_cons in Hin as [<-|Hin].
    + rewrite Hp. left.
    + destruct (process_item W cfg it'); [right|]; apply IH, Hin.
  - intros it e Hp res Hin Hit.
    apply processed_elem_of in Hin as (it' & _ & Hp').
    rewrite (process_item_keeps_item W cfg it' res Hp') in Hit. subst it'.
    congruence.
Qed.

Lemma run_survives_item_failures_witness :
  exists r,
    main Demo.extraction_broken Demo.cfg Demo.fresh = Completed r
    /\ (forall it res,
          it ∈ run_items r ->
          process_item Demo.extraction_broken Demo.cfg it = Ret res ->
          res ∈ run_results r)
    /\ (forall it e,
          process_item Demo.extraction_broken Demo.cfg it = Raise e ->
          forall res, res ∈ run_results r -> res_item res <> it).
Proof.
  apply (run_survives_item_failures Demo.extraction_broken Demo.cfg Demo.fresh).
  - discriminate.
  - repeat constructor; eexists; vm_compute; reflexivity.
  - reflexivity.
Defined.

(** X2: every item a completed run collects is new and well formed: its
    uid is outside the set loaded at the start, its link and title are not
    empty, its uid is the digest of its link and its source the domain of
    its link. *)
Theorem collected_items_are_new (W : World) (cfg : Config) (d : Disk) (r : Run) :
  main W cfg d = Completed r ->
  Forall (fun it =>
            (it_uid it ∉ load_seen (seen_json d))
            /\ it_link it <> ""
            /\ it_title it <> ""
            /\ it_uid it = hash_id W (it_link it)
            /\ it_source it = domain_of W (it_link it))
         (run_items r).
Proof.
  intros H.
  destruct (main_completed W cfg d r H) as (_ & _ & Hitems & _).
  rewrite Hitems, Forall_forall. intros it Hit.
  apply elem_of_flat_map in Hit as (entry & _ & Hit).
  apply contribution_spec in Hit as (-> & Hl & Hout).
  split; [exact Hout|].
  split; [apply entry_target_nonempty, Hl|].
  split; [apply or_nonempty_r; discriminate|].
  split; reflexivity.
Qed.

Lemma collected_items_are_new_witness :
  exists r,
    main Demo.online Demo.cfg Demo.fresh = Completed r
    /\ Forall (fun it =>
                 (it_uid it ∉ load_seen (seen_json Demo.fresh))
                 /\ it_link it <> ""
                 /\ it_title it <> ""
                 /\ it_uid it = hash_id Demo.online (it_link it)
                 /\ it_source it = domain_of Demo.online (it_link it))
              (run_items r).
Proof.
  destruct demo_online_run as [r Hr].
  exists r. split; [exact Hr|].
  apply (collected_items_are_new Demo.online Demo.cfg Demo.fresh r Hr).
Defined.

(** X3: the results of a completed run are results of collected items, in
    the order of collection, and none has an empty summary: where no
    sentence could be produced the marker stands in. *)
Theorem results_are_summarized_items
  (W : World) (cfg : Config) (d : Disk) (r : Run) :
  main W cfg d = Completed r ->
  res_item <$> run_results r `sublist_of` run_items r
  /\ Forall (fun res => res_summary res <> "") (run_results r).
Proof.
  intros H.
  destruct (main_completed W cfg d r H) as (_ & _ & _ & Hres & _).
  rewrite Hres. split; [apply processed_sublist|].
  rewrite Forall_forall. intros res Hin.
  apply processed_elem_of in Hin as (it & _ & Hit).
  eapply process_item_summary, Hit.
Qed.

Lemma results_are_summarized_items_witness :
  exists r,
    main Demo.online Demo.cfg Demo.fresh = Completed r
    /\ res_item <$> run_results r `sublist_of` run_items r
    /\ Forall (fun res => res_summary res <> "") (run_results r).
Proof.
  destruct demo_online_run as [r Hr].
  exists r. split; [exact Hr|].
  apply (results_are_summarized_items Demo.online Demo.cfg Demo.fresh r Hr).
Defined.

(** X4: after a completed run a uid is in the set of seen uids exactly when
    it was in the set loaded at the start or is the uid of a result; an item
    whose processing failed is not marked as seen. *)
Theorem seen_after_run (W : World) (cfg : Config) (d : Disk) (r : Run) :
  main W cfg d = Completed r ->
  forall u,
    u ∈ run_seen r
    <-> u ∈ load_seen (seen_json d) \/ u ∈ res_uid <$> run_results r.
Proof.
  intros H u.
  destruct (main_completed W cfg d r H) as (_ & _ & _ & _ & _ & Hseen & _).
  rewrite Hseen, elem_of_union, elem_of_list_to_set. tauto.
Qed.

Lemma seen_after_run_witness :
  exists r,
    main Demo.extraction_broken Demo.cfg Demo.fresh = Completed r
    /\ forall u,
         u ∈ run_seen r
         <-> u ∈ load_seen (seen_json Demo.fresh) \/ u ∈ res_uid <$> run_results r.
Proof.
  destruct demo_broken_run as [r Hr].
  exists r. split; [exact Hr|].
  apply (seen_after_run Demo.extraction_broken Demo.cfg Demo.fresh r Hr).
Defined.

Lemma flat_map_flat_map {A B C : Type} (g : A -> list B) (h : B -> list C)
  (l : list A) :
  flat_map h (flat_map g l) = concat ((fun x => flat_map h (g x)) <$> l).
Proof.
  induction l as [|x l IH]; [reflexivity|].
  cbn [flat_map]. rewrite flat_map_app, IH. reflexivity.
Qed.

(** X5: with a non-negative [max_per_feed], the items a completed run
    collects are, feed after feed in the order of the configuration, the
    items of the first [max_per_feed] entries of each feed: at most
    [max_per_feed] items come from any one feed; and the results are no more
    than the items. *)
Theorem items_bounded_by_max_per_feed
  (W : World) (cfg : Config) (d : Disk) (r : Run) :
  main W cfg d = Completed r ->
  (0 <= max_per_feed cfg)%Z ->
  (exists per_feed : list (list Item),
     run_items r = concat per_feed
     /\ Forall2
          (fun feed_url its =>
             exists entries,
               feedparser_parse W feed_url = Ret entries
               /\ its = flat_map (contribution W (load_seen (seen_json d)))
                                 (slice_to entries (max_per_feed cfg))
               /\ (length its <= Z.to_nat (max_per_feed cfg))%nat)
          (feeds cfg) per_feed)
  /\ (length (run_results r) <= length (run_items r))%nat.
Proof.
  intros H Hk.
  destruct (main_completed W cfg d r H) as (_ & Hall & Hitems & Hres & _).
  split.
  - exists ((fun feed_url =>
               flat_map (contribution W (load_seen (seen_json d)))
                 match feedparser_parse W feed_url with
                 | Ret entries => slice_to entries (max_per_feed cfg)
                 | Raise _ => []
                 end) <$> feeds cfg).
    split; [rewrite Hitems; apply flat_map_flat_map|].
    clear Hitems. induction Hall as [|f fs [entries Hf] _ IH]; [constructor|].
    rewrite fmap_cons. constructor; [|exact IH].
    exists entries. rewrite Hf. split; [reflexivity|]. split; [reflexivity|].
    etrans; [apply contribution_length | apply slice_to_length_le, Hk].
  - rewrite <- (length_fmap res_item).
    apply sublist_length. rewrite Hres. apply processed_sublist.
Qed.

Lemma items_bounded_by_max_per_feed_witness :
  exists r,
    main Demo.extraction_broken Demo.cfg Demo.fresh = Completed r
    /\ (exists per_feed : list (list Item),
          run_items r = concat per_feed
          /\ Forall2
               (fun feed_url its =>
                  exists entries,
                    feedparser_parse Demo.extraction_broken feed_url = Ret entries
                    /\ its = flat_map
                               (contribution Demo.extraction_broken
                                  (load_seen (seen_json Demo.fresh)))
                               (slice_to entries (max_per_feed Demo.cfg))
                    /\ (length its <= Z.to_nat (max_per_feed Demo.cfg))%nat)
               (feeds Demo.cfg) per_feed)
    /\ (length (run_results r) <= length (run_items r))%nat.
Proof.
  destruct demo_broken_run as [r Hr].
  exists r. split; [exact Hr|].
  apply (items_bounded_by_max_per_feed Demo.extraction_broken Demo.cfg
           Demo.fresh r Hr).
  cbn. lia.
Defined.

(** ** Persistence *)

Lemma load_seen_save_seen (d : Disk) (s : gset string) :
  seen_json_writable d = true -> load_seen (save_seen d s) = s.
Proof.
  intros Hw. unfold save_seen. rewrite Hw. cbn.
  rewrite <- (list_to_set_elements_L s) at 2.
  apply list_to_set_perm_L, merge_sort_Permutation.
Qed.

Lemma save_seen_sorted (d : Disk) (s : gset string) :
  seen_json_writable d = true ->
  exists l, save_seen d s = Stored l /\ Sorted String.le l /\ NoDup l.
Proof.
  intros Hw. unfold save_seen. rewrite Hw. eexists. split; [reflexivity|].
  split; [apply Sorted_merge_sort; apply _|].
  rewrite merge_sort_Permutation. apply NoDup_elements.
Qed.

Lemma fold_append_history_updated (rs : list Result) (st : HistoryState) :
  history_inv st ->
  updated_history (fold_left append_history rs st) = true
  <-> updated_history st = true
      \/ exists res, res ∈ rs /\ res_uid res ∉ h_uid <$> history_entries st.
Proof.
  revert st. induction rs as [|r rs IH]; intros st Hinv.
  - cbn. split; [auto|]. intros [H|(res & Hin & _)]; [exact H | inversion Hin].
  - cbn [fold_left]. rewrite (IH _ (append_history_inv st r Hinv)).
    unfold append_history. fold (res_uid r).
    destruct (decide (res_uid r ∈ known_ids st)) as [Hin|Hout].
    + apply (known_ids_elem_of _ _ Hinv) in Hin.
      split; (intros [H|(res & Hres & Hnew)]; [left; exact H|right]).
      * exists res. split; [right; exact Hres | exact Hnew].
      * apply elem_of_cons in Hres as [->|Hres]; [contradiction|].
        exists res. split; assumption.
    + rewrite (known_ids_elem_of _ _ Hinv) in Hout. cbn.
      split; [|auto]. intros _. right. exists r. split; [left | exact Hout].
Qed.

Lemma merge_history_updated (history : list HistoryEntry) (rs : list Result) :
  updated_history (merge_history history rs) = true
  <-> exists res, res ∈ rs /\ res_uid res ∉ h_uid <$> history.
Proof.
  unfold merge_history.
  rewrite fold_append_history_updated by apply history_inv_init.
  cbn. split; [intros [H|H]; [discriminate | exact H] | auto].
Qed.

Lemma merge_history_not_updated (history : list HistoryEntry) (rs : list Result) :
  updated_history (merge_history history rs) = false ->
  history_entries (merge_history history rs) = history.
Proof. apply (fold_append_history_not_updated rs). Qed.

(** A run with nothing new leaves an existing [all_articles.json] alone. *)
Lemma main_history_untouched (W : World) (cfg : Config) (d : Disk) (r : Run) :
  main W cfg d = Completed r ->
  file_exists (all_articles_json d) = true ->
  (forall res, res ∈ run_results r ->
               res_uid res ∈ h_uid <$> load_history (all_articles_json d)) ->
  run_all_articles_json r = all_articles_json d
  /\ run_history r = load_history (all_articles_json d).
Proof.
  intros H Hex Hknown.
  destruct (main_completed W cfg d r H)
    as (_ & _ & _ & _ & _ & _ & Hhist & _ & Hfile).
  assert (Hup : updated_history
                  (merge_history (load_history (all_articles_json d))
                                 (run_results r)) = false).
  { apply not_true_is_false. rewrite merge_history_updated.
    intros (res & Hin & Hnew). apply Hnew, Hknown, Hin. }
  rewrite Hfile, Hhist, Hup, Hex. cbn.
  split; [reflexivity | apply merge_history_not_updated, Hup].
Qed.

Lemma main_history_reload (W : World) (cfg : Config) (d : Disk) (r : Run) :
  main W cfg d = Completed r ->
  all_articles_json_writable d = true ->
  load_history (run_all_articles_json r) = run_history r
  /\ file_exists (run_all_articles_json r) = true.
Proof.
  intros H Hw.
  destruct (main_completed W cfg d r H)
    as (_ & _ & _ & _ & _ & _ & Hhist & _ & Hfile).
  rewrite Hfile, Hhist. unfold save_history. rewrite Hw.
  destruct (updated_history _) eqn:Hup; cbn; [split; reflexivity|].
  rewrite (merge_history_not_updated _ _ Hup).
  destruct (all_articles_json d); cbn; split; reflexivity.
Qed.

(** X6: when both state files can be written, loading them back after a
    completed run gives the set of seen uids and the history the run ended
    with; [seen.json] holds the uids sorted, each once. *)
Theorem state_files_round_trip (W : World) (cfg : Config) (d : Disk) (r : Run) :
  main W cfg d = Completed r ->
  seen_json_writable d = true ->
  all_articles_json_writable d = true ->
  load_seen (run_seen_json r) = run_seen r
  /\ load_history (run_all_articles_json r) = run_history r
  /\ exists uids,
       run_seen_json r = Stored uids /\ Sorted String.le uids /\ NoDup uids.
Proof.
  intros H Hws Hwh.
  destruct (main_completed W cfg d r H)
    as (_ & _ & _ & _ & _ & _ & _ & Hsf & _).
  rewrite Hsf.
  split; [apply load_seen_save_seen, Hws|].
  split; [apply (main_history_reload W cfg d r H Hwh)|].
  apply save_seen_sorted, Hws.
Qed.

Lemma state_files_round_trip_witness :
  exists r,
    main Demo.online Demo.cfg Demo.fresh = Completed r
    /\ load_seen (run_seen_json r) = run_seen r
    /\ load_history (run_all_articles_json r) = run_history r
    /\ exists uids,
         run_seen_json r = Stored uids /\ Sorted String.le uids /\ NoDup uids.
Proof.
  destruct demo_online_run as [r Hr].
  exists r. split; [exact Hr|].
  apply (state_files_round_trip Demo.online Demo.cfg Demo.fresh r Hr);
    reflexivity.
Defined.

(** X7: [all_articles.json] is rewritten only when there is something to
    write. If the file exists and every result is already in the loaded
    history, no write is attempted: the file is left as it is and the
    history is the loaded one; if the write succeeds and the file is
    missing or some result is new, it receives the whole history of the
    run, so an unreadable file is replaced by the new entries alone. *)
Theorem history_file_policy (W : World) (cfg : Config) (d : Disk) (r : Run) :
  main W cfg d = Completed r ->
  (file_exists (all_articles_json d) = true ->
   (forall res, res ∈ run_results r ->
                res_uid res ∈ h_uid <$> load_history (all_articles_json d)) ->
   run_all_articles_json r = all_articles_json d
   /\ run_history r = load_history (all_articles_json d))
  /\ (all_articles_json_writable d = true ->
      all_articles_json d = Absent
      \/ (exists res, res ∈ run_results r
                      /\ res_uid res ∉ h_uid <$> load_history (all_articles_json d)) ->
      run_all_articles_json r = Stored (run_history r)).
Proof.
  intros H.
  split; [apply (main_history_untouched W cfg d r H)|].
  destruct (main_completed W cfg d r H)
    as (_ & _ & _ & _ & _ & _ & Hhist & _ & Hfile).
  intros Hw Hcase. rewrite Hfile, Hhist. unfold save_history. rewrite Hw.
  destruct Hcase as [Habs|Hnew].
  - rewrite Habs. cbn. rewrite orb_true_r. reflexivity.
  - apply merge_history_updated in Hnew. rewrite Hnew. reflexivity.
Qed.

Lemma history_file_policy_witness :
  exists r,
    main Demo.online Demo.cfg Demo.fresh = Completed r
    /\ run_all_articles_json r = Stored (run_history r).
Proof.
  destruct demo_online_run as [r Hr].
  exists r. split; [exact Hr|].
  apply (proj2 (history_file_policy Demo.online Demo.cfg Demo.fresh r Hr));
    [reflexivity | left; reflexivity].
Defined.

(** ** A second run *)

Lemma main_completed_reports (W : World) (cfg : Config) (d : Disk) (r : Run) :
  main W cfg d = Completed r -> reports_writable d = true.
Proof.
  unfold main. destruct (feeds cfg); [discriminate|].
  destruct (for_each _ _ _); [|discriminate].
  destruct (reports_writable d); [reflexivity | discriminate].
Qed.

Lemma second_run_completes (W : World) (cfg : Config) (d : Disk) (r1 : Run) :
  main W cfg d = Completed r1 ->
  exists r2, main W cfg (disk_after d r1) = Completed r2.
Proof.
  intros H.
  destruct (main_completed W cfg d r1 H) as (Hne & Hall & _).
  apply main_completes; [exact Hne | exact Hall|].
  apply (main_completed_reports W cfg d r1 H).
Qed.

Lemma second_run_items (W : World) (cfg : Config) (d : Disk) (r1 r2 : Run) :
  main W cfg d = Completed r1 ->
  seen_json_writable d = true ->
  main W cfg (disk_after d r1) = Completed r2 ->
  run_items r2 = filter (fun it => it_uid it ∉ run_seen r1) (run_items r1).
Proof.
  intros H1 Hw H2.
  destruct (main_completed W cfg d r1 H1)
    as (_ & _ & Hitems1 & _ & _ & Hseen1 & _ & Hsf1 & _).
  destruct (main_completed W cfg _ r2 H2) as (_ & _ & Hitems2 & _).
  cbn [disk_after seen_json] in Hitems2.
  rewrite Hsf1, (load_seen_save_seen d _ Hw) in Hitems2.
  rewrite Hitems2, Hitems1.
  apply contribution_larger_seen.
  rewrite Hseen1. apply union_subseteq_r.
Qed.

Lemma filter_none {A : Type} (P : A -> Prop) `{!forall x, Decision (P x)}
  (l : list A) :
  (forall x, x ∈ l -> ~ P x) -> filter P l = [].
Proof.
  induction l as [|x l IH]; intros Hl; [reflexivity|].
  rewrite filter_cons_False by (apply Hl; left).
  apply IH. intros y Hy. apply Hl. right. exact Hy.
Qed.

Lemma all_processed_results (W : World) (cfg : Config) (items : list Item) :
  Forall (fun it => returns (process_item W cfg it)) items ->
  res_item <$> processed W cfg items = items.
Proof.
  induction 1 as [|it items [res Hit] _ IH]; [reflexivity|].
  rewrite processed_cons, Hit, fmap_cons, IH.
  rewrite (process_item_keeps_item W cfg it res Hit). reflexivity.
Qed.

(** X8: when [seen.json] can be written, a second run over the same feeds
    in the output directory of a completed run completes too, and collects
    exactly the items of the first run whose uid was not marked as seen:
    the items that failed are tried again, the others are skipped without a
    fetch. *)
Theorem second_run_retries_unseen
  (W : World) (cfg : Config) (d : Disk) (r1 : Run) :
  main W cfg d = Completed r1 ->
  seen_json_writable d = true ->
  exists r2,
    main W cfg (disk_after d r1) = Completed r2
    /\ run_items r2 = filter (fun it => it_uid it ∉ run_seen r1) (run_items r1)
    /\ run_fetched r2 = it_link <$> run_items r2.
Proof.
  intros H1 Hw.
  destruct (second_run_completes W cfg d r1 H1) as [r2 H2].
  exists r2. split; [exact H2|].
  split; [apply (second_run_items W cfg d r1 r2 H1 Hw H2)|].
  destruct (main_completed W cfg _ r2 H2) as (_ & _ & _ & _ & Hf & _).
  exact Hf.
Qed.

(** After a run in which extraction raised for every item, the second run
    collects the same two items again. *)
Lemma second_run_retries_unseen_witness :
  exists r1 r2,
    main Demo.extraction_broken Demo.cfg Demo.fresh = Completed r1
    /\ main Demo.extraction_broken Demo.cfg (disk_after Demo.fresh r1)
       = Completed r2
    /\ run_items r2 = filter (fun it => it_uid it ∉ run_seen r1) (run_items r1)
    /\ run_fetched r2 = it_link <$> run_items r2.
Proof.
  destruct demo_broken_run as [r1 H1]. exists r1.
  destruct (second_run_retries_unseen Demo.extraction_broken Demo.cfg
              Demo.fresh r1 H1 eq_refl) as (r2 & H2 & Hitems & Hf).
  exists r2. repeat split; assumption.
Defined.

(** X9: when both state files can be written and every collected item was
    processed without an exception, a second run over unchanged feeds
    collects nothing, fetches nothing, reports nothing, and leaves the set of
    seen uids, the history and both state files as the first run left
    them. *)
Theorem second_run_is_idle
  (W : World) (cfg : Config) (d : Disk) (r1 : Run) :
  main W cfg d = Completed r1 ->
  seen_json_writable d = true ->
  all_articles_json_writable d = true ->
  Forall (fun it => returns (process_item W cfg it)) (run_items r1) ->
  exists r2,
    main W cfg (disk_after d r1) = Completed r2
    /\ run_items r2 = []
    /\ run_fetched r2 = []
    /\ run_results r2 = []
    /\ run_seen r2 = run_seen r1
    /\ run_history r2 = run_history r1
    /\ disk_after (disk_after d r1) r2 = disk_after d r1.
Proof.
  intros H1 Hws Hwh Hall.
  destruct (second_run_completes W cfg d r1 H1) as [r2 H2].
  exists r2. split; [exact H2|].
  destruct (main_completed W cfg d r1 H1)
    as (_ & _ & _ & Hres1 & _ & Hseen1 & _ & Hsf1 & _).
  assert (Hitems : run_items r2 = []).
  { rewrite (second_run_items W cfg d r1 r2 H1 Hws H2).
    apply filter_none. intros it Hit Hout. apply Hout.
    rewrite Hseen1. apply elem_of_union_l, elem_of_list_to_set.
    rewrite <- (all_processed_results W cfg _ Hall), <- Hres1 in Hit.
    apply list_elem_of_fmap in Hit as (res & -> & Hin).
    apply list_elem_of_fmap. exists res. split; [reflexivity | exact Hin]. }
  destruct (main_completed W cfg _ r2 H2)
    as (_ & _ & _ & Hres2 & Hf2 & Hseen2 & Hhist2 & Hsf2 & _).
  rewrite Hitems in Hres2, Hf2. cbn in Hres2, Hf2.
  assert (Hs : run_seen r2 = run_seen r1).
  { rewrite Hseen2, Hres2. cbn [disk_after seen_json].
    rewrite Hsf1. rewrite (load_seen_save_seen d _ Hws). cbn.
    apply (left_id_L ∅ (∪)). }
  destruct (main_history_reload W cfg d r1 H1 Hwh) as [Hload Hex].
  destruct (main_history_untouched W cfg _ r2 H2) as [Hfile Hh].
  { exact Hex. }
  { rewrite Hres2. intros res Hin. inversion Hin. }
  cbn [disk_after all_articles_json] in Hfile, Hh.
  repeat split; try assumption.
  - rewrite Hh. exact Hload.
  - unfold disk_after at 1. cbn. rewrite Hfile, Hsf2, Hs.
    unfold disk_after. rewrite Hsf1.
    unfold save_seen. cbn. rewrite Hws. reflexivity.
Qed.

Lemma second_run_is_idle_witness :
  exists r1 r2,
    main Demo.online Demo.cfg Demo.fresh = Completed r1
    /\ main Demo.online Demo.cfg (disk_after Demo.fresh r1) = Completed r2
    /\ run_items r2 = []
    /\ run_history r2 = run_history r1.
Proof.
  assert (H : exists r1,
             main Demo.online Demo.cfg Demo.fresh = Completed r1
             /\ Forall (fun it => returns (process_item Demo.online Demo.cfg it))
                       (run_items r1)).
  { eexists. split; [vm_compute; reflexivity|].
    repeat constructor; eexists; vm_compute; reflexivity. }
  destruct H as (r1 & H1 & Hall). exists r1.
  destruct (second_run_is_idle Demo.online Demo.cfg Demo.fresh r1 H1
              eq_refl eq_refl Hall)
    as (r2 & H2 & Hitems & _ & _ & _ & Hh & _).
  exists r2. repeat split; assumption.
Defined.

(** ** Facts about the text helpers *)

Section StripFacts.

Context (p : ascii -> bool).

Lemma lstrip_by_head (s : string) :
  lstrip_by p s = ""
  \/ exists c t, lstrip_by p s = String c t /\ p c = false.
Proof.
  induction s as [|c s IH]; [left; reflexivity|].
  cbn. destruct (p c) eqn:Hc; [exact IH|].
  right. exists c, s. split; [reflexivity | exact Hc].
Qed.

Lemma rstrip_by_cons (c : ascii) (s : string) :
  rstrip_by p (String c s)
  = match rstrip_by p s with
    | EmptyString => if p c then EmptyString else String c EmptyString
    | r => String c r
    end.
Proof. reflexivity. Qed.

Lemma rstrip_by_idem (s : string) :
  rstrip_by p (rstrip_by p s) = rstrip_by p s.
Proof.
  induction s as [|c s IH]; [reflexivity|].
  rewrite rstrip_by_cons. destruct (rstrip_by p s) as [|d r] eqn:Hr.
  - destruct (p c) eqn:Hc; cbn; [reflexivity|]. rewrite Hc. reflexivity.
  - rewrite rstrip_by_cons, IH. reflexivity.
Qed.

Lemma rstrip_by_keeps_head (c : ascii) (t : string) :
  p c = false -> exists t', rstrip_by p (String c t) = String c t'.
Proof.
  intros Hc. cbn. destruct (rstrip_by p t) as [|d r].
  - rewrite Hc. exists "". reflexivity.
  - exists (String d r). reflexivity.
Qed.

(** Stripping twice is stripping once. *)
Lemma strip_by_idem (s : string) :
  strip_by p (strip_by p s) = strip_by p s.
Proof.
  unfold strip_by.
  destruct (lstrip_by_head s) as [->|(c & t & -> & Hc)]; [reflexivity|].
  destruct (rstrip_by_keeps_head c t Hc) as [t' Ht'].
  rewrite Ht'. cbn [lstrip_by]. rewrite Hc, <- Ht'. apply rstrip_by_idem.
Qed.

Lemma all_chars_lstrip_by (q : ascii -> bool) (s : string) :
  RefWorld.all_chars q s = true -> RefWorld.all_chars q (lstrip_by p s) = true.
Proof.
  induction s as [|c s IH]; [reflexivity|].
  cbn. intros [Hc Hs]%andb_prop.
  destruct (p c); [apply IH, Hs|]. cbn. rewrite Hc, Hs. reflexivity.
Qed.

Lemma all_chars_rstrip_by (q : ascii -> bool) (s : string) :
  RefWorld.all_chars q s = true -> RefWorld.all_chars q (rstrip_by p s) = true.
Proof.
  induction s as [|c s IH]; [reflexivity|].
  cbn. intros [Hc Hs]%andb_prop. specialize (IH Hs).
  destruct (rstrip_by p s) as [|d r].
  - destruct (p c); cbn; [reflexivity|]. rewrite Hc. reflexivity.
  - cbn [RefWorld.all_chars]. rewrite Hc. exact IH.
Qed.

Lemma all_chars_strip_by (q : ascii -> bool) (s : string) :
  RefWorld.all_chars q s = true -> RefWorld.all_chars q (strip_by p s) = true.
Proof. intros H. apply all_chars_rstrip_by, all_chars_lstrip_by, H. Qed.

Lemma single_spaced_lstrip_by (b : bool) (s : string) :
  single_spaced b s = true -> single_spaced false (lstrip_by p s) = true.
Proof.
  revert b. induction s as [|c s IH]; intros b; [reflexivity|].
  cbn. destruct (p c).
  - destruct (isspace c); [|apply IH].
    intros [_ Hs]%andb_prop. apply (IH true), Hs.
  - cbn. destruct (isspace c); [|tauto].
    intros [[-> _]%andb_prop Hs]%andb_prop. rewrite Hs. reflexivity.
Qed.

Lemma single_spaced_rstrip_by (b : bool) (s : string) :
  single_spaced b s = true -> single_spaced b (rstrip_by p s) = true.
Proof.
  revert b. induction s as [|c s IH]; intros b; [reflexivity|].
  cbn. destruct (isspace c) eqn:Hsp.
  - intros [Hc Hs]%andb_prop. specialize (IH true Hs).
    destruct (rstrip_by p s) as [|d r].
    + destruct (p c); [reflexivity|]. cbn. rewrite Hsp, Hc. reflexivity.
    + cbn [single_spaced]. rewrite Hsp, Hc. exact IH.
  - intros Hs. specialize (IH false Hs).
    destruct (rstrip_by p s) as [|d r].
    + destruct (p c); [reflexivity|]. cbn. rewrite Hsp. reflexivity.
    + cbn [single_spaced]. rewrite Hsp. exact IH.
Qed.

End StripFacts.

Lemma sub_spaces_from_single (b : bool) (s : string) :
  single_spaced b (sub_spaces_from b s) = true.
Proof.
  revert b. induction s as [|c s IH]; intros b; [reflexivity|].
  cbn. destruct (isspace c) eqn:Hsp.
  - destruct b; [apply IH|]. cbn. apply IH.
  - cbn. rewrite Hsp. apply IH.
Qed.

Lemma single_spaced_fixed (b : bool) (s : string) :
  single_spaced b s = true -> sub_spaces_from b s = s.
Proof.
  revert b. induction s as [|c s IH]; intros b; [reflexivity|].
  cbn. destruct (isspace c).
  - intros [[Hc Hb]%andb_prop Hs]%andb_prop.
    apply bool_decide_eq_true in Hc. apply negb_true_iff in Hb.
    subst. rewrite (IH true Hs). reflexivity.
  - intros Hs. rewrite (IH false Hs). reflexivity.
Qed.

Lemma single_spaced_strip_by (p : ascii -> bool) (s : string) :
  single_spaced false (strip_by p (sub_spaces s)) = true.
Proof.
  apply single_spaced_rstrip_by. eapply single_spaced_lstrip_by.
  apply (sub_spaces_from_single false).
Qed.

Lemma normalised_fixed (p : ascii -> bool) (s : string) :
  let t := strip_by p (sub_spaces s) in
  strip_by p t = t /\ sub_spaces t = t.
Proof.
  cbn zeta. split; [apply strip_by_idem|].
  apply (single_spaced_fixed false), single_spaced_strip_by.
Qed.

Lemma append_cons (c : ascii) (s t : string) :
  String c s +:+ t = String c (s +:+ t).
Proof. reflexivity. Qed.

Lemma append_empty_l (t : string) : "" +:+ t = t.
Proof. reflexivity. Qed.

Lemma append_assoc (s t u : string) : (s +:+ t) +:+ u = s +:+ (t +:+ u).
Proof.
  induction s as [|c s IH]; [reflexivity|].
  rewrite !append_cons, IH. reflexivity.
Qed.

Lemma all_chars_append (q : ascii -> bool) (s t : string) :
  RefWorld.all_chars q (s +:+ t)
  = RefWorld.all_chars q s && RefWorld.all_chars q t.
Proof.
  induction s as [|c s IH]; [reflexivity|].
  rewrite append_cons. cbn. rewrite IH, andb_assoc. reflexivity.
Qed.

Section RstripAppend.

Context (p : ascii -> bool).

(** Trailing characters that are all stripped do not matter. *)
Lemma rstrip_by_append_all (s t : string) :
  RefWorld.all_chars p t = true -> rstrip_by p (s +:+ t) = rstrip_by p s.
Proof.
  intros Ht. induction s as [|c s IH].
  - rewrite append_empty_l. induction t as [|d t IHt]; [reflexivity|].
    cbn in Ht. apply andb_prop in Ht as [Hd Ht].
    rewrite rstrip_by_cons, (IHt Ht). cbn. rewrite Hd. reflexivity.
  - rewrite append_cons, !rstrip_by_cons, IH. reflexivity.
Qed.

(** A text that ends in a character that is kept stays as it is behind any
    prefix. *)
Lemma rstrip_by_append_fixed (s t : string) :
  t <> "" -> rstrip_by p t = t -> rstrip_by p (s +:+ t) = s +:+ t.
Proof.
  intros Hne Ht. induction s as [|c s IH]; [exact Ht|].
  rewrite append_cons, rstrip_by_cons, IH.
  destruct (s +:+ t) eqn:E; [|reflexivity].
  destruct s; [|discriminate]. rewrite append_empty_l in E. contradiction.
Qed.

(** A text fixed by stripping more characters is fixed by stripping fewer. *)
Lemma rstrip_by_fixed_mono (q : ascii -> bool) (s : string) :
  (forall c, q c = true -> p c = true) ->
  rstrip_by p s = s -> rstrip_by q s = s.
Proof.
  intros Hqp. induction s as [|c s IH]; [reflexivity|].
  rewrite !rstrip_by_cons.
  destruct (rstrip_by p s) as [|d r] eqn:Hr.
  - destruct (p c) eqn:Hc; [discriminate|].
    intros [= <-]. cbn. destruct (q c) eqn:Hq; [|reflexivity].
    rewrite (Hqp c Hq) in Hc. discriminate.
  - intros [= Hs]. rewrite (IH Hs), <- Hs. reflexivity.
Qed.

End RstripAppend.

(** X10: the hint text of a feed entry is normalised: stripping it or
    collapsing its whitespace once more changes nothing, so it has no
    leading or trailing whitespace and no whitespace but single spaces; it is
    empty for an empty fragment and when the HTML parser raises. *)
Theorem html_to_text_normalised (W : World) (html : string) :
  strip (html_to_text W html) = html_to_text W html
  /\ sub_spaces (html_to_text W html) = html_to_text W html
  /\ (html = "" \/ (exists e, soup_get_text W html = Raise e) ->
      html_to_text W html = "").
Proof.
  unfold html_to_text.
  destruct html as [|c html]; cbn [truthy]; [repeat split|].
  destruct (soup_get_text W (String c html)) as [t|e].
  - split; [apply (normalised_fixed isspace t)|].
    split; [apply (normalised_fixed isspace t)|].
    intros [H|[e H]]; discriminate.
  - repeat split.
Qed.

Lemma html_to_text_normalised_witness :
  html_to_text
    (RefWorld.world [] (fun _ => Ret None) (fun _ _ => Ret None))
    "" = "".
Proof.
  apply (proj2 (proj2 (html_to_text_normalised
                         (RefWorld.world [] (fun _ => Ret None)
                                         (fun _ _ => Ret None)) ""))).
  left. reflexivity.
Defined.

(** X11: cleaning a sentence is idempotent: a cleaned sentence has no
    leading or trailing space or period and only single spaces inside. *)
Theorem clean_sentence_idempotent (s : string) :
  clean_sentence (clean_sentence s) = clean_sentence s
  /\ strip_by space_or_dot (clean_sentence s) = clean_sentence s
  /\ sub_spaces (clean_sentence s) = clean_sentence s.
Proof.
  destruct (normalised_fixed space_or_dot s) as [Hstrip Hsub].
  unfold clean_sentence in *.
  split; [rewrite Hsub; exact Hstrip|]. split; assumption.
Qed.

Lemma clean_sentence_rstrip_dot (s : string) :
  rstrip_by is_dot (clean_sentence s) = clean_sentence s.
Proof.
  apply (rstrip_by_fixed_mono space_or_dot).
  - intros c Hc. apply bool_decide_eq_true in Hc. subst c. reflexivity.
  - unfold clean_sentence, strip_by. apply rstrip_by_idem.
Qed.

(** X12: the bullet of a cleaned sentence ends in exactly one period:
    taking every trailing period away and putting one back gives the
    bullet. *)
Theorem bullet_single_period (s : string) :
  rstrip_by is_dot (bullet (clean_sentence s)) +:+ "."
  = bullet (clean_sentence s).
Proof.
  unfold bullet.
  rewrite <- (append_assoc "- " (clean_sentence s) ".").
  rewrite rstrip_by_append_all by reflexivity.
  destruct (clean_sentence s) as [|c t] eqn:E; [reflexivity|].
  rewrite rstrip_by_append_fixed; [reflexivity | discriminate|].
  rewrite <- E. apply clean_sentence_rstrip_dot.
Qed.

Section SplitJoin.

Context (c : ascii).

Lemma split_all_nonempty (s : string) : RefWorld.split_all c s <> [].
Proof.
  induction s as [|a s IH]; cbn; [discriminate|].
  destruct (decide (a = c)); [discriminate|].
  destruct (RefWorld.split_all c s); [contradiction | discriminate].
Qed.

(** A text without the separator is one piece; a piece followed by the
    separator is split off. *)
Lemma split_all_append (s rest : string) :
  RefWorld.all_chars (is_not c) s = true ->
  RefWorld.split_all c (s +:+ String c rest) = s :: RefWorld.split_all c rest.
Proof.
  induction s as [|a s IH]; intros Hs.
  - rewrite append_empty_l. cbn. rewrite decide_True by reflexivity. reflexivity.
  - cbn in Hs. apply andb_prop in Hs as [Ha Hs]. unfold is_not in Ha.
    apply negb_true_iff, bool_decide_eq_false in Ha.
    rewrite append_cons. cbn. rewrite decide_False by exact Ha.
    rewrite (IH Hs). reflexivity.
Qed.

Lemma split_all_one (s : string) :
  RefWorld.all_chars (is_not c) s = true -> RefWorld.split_all c s = [s].
Proof.
  induction s as [|a s IH]; intros Hs; [reflexivity|].
  cbn in Hs. apply andb_prop in Hs as [Ha Hs]. unfold is_not in Ha.
  apply negb_true_iff, bool_decide_eq_false in Ha.
  cbn. rewrite decide_False by exact Ha. rewrite (IH Hs). reflexivity.
Qed.

(** Splitting undoes joining when no part holds the separator. *)
Lemma split_all_join (parts : list string) :
  parts <> [] ->
  Forall (fun part => RefWorld.all_chars (is_not c) part = true) parts ->
  RefWorld.split_all c (join (String c "") parts) = parts.
Proof.
  intros Hne Hall. induction Hall as [|part parts Hp Hall IH]; [contradiction|].
  destruct parts as [|q parts]; [apply split_all_one, Hp|].
  change (join (String c "") (part :: q :: parts))
    with (part +:+ String c "" +:+ join (String c "") (q :: parts)).
  rewrite append_cons, append_empty_l, (split_all_append _ _ Hp).
  rewrite IH by discriminate. reflexivity.
Qed.

(** The pieces of a split hold no separator and nothing the text did not
    hold. *)
Lemma split_all_pieces (q : ascii -> bool) (s : string) :
  RefWorld.all_chars q s = true ->
  Forall (fun piece =>
            RefWorld.all_chars (is_not c) piece = true
            /\ RefWorld.all_chars q piece = true)
         (RefWorld.split_all c s).
Proof.
  induction s as [|a s IH]; intros Hs; [repeat constructor|].
  cbn in Hs. apply andb_prop in Hs as [Ha Hs]. specialize (IH Hs).
  cbn. destruct (decide (a = c)) as [->|Hne].
  - constructor; [split; reflexivity | exact IH].
  - destruct (RefWorld.split_all c s) as [|piece pieces];
      [repeat constructor; cbn; unfold is_not;
       rewrite ?bool_decide_eq_false_2, ?Ha by exact Hne; reflexivity|].
    apply Forall_cons in IH as [[Ho Hq] IH].
    constructor; [|exact IH].
    cbn. unfold is_not at 1. rewrite bool_decide_eq_false_2 by exact Hne.
    rewrite Ho, Ha, Hq. split; reflexivity.
Qed.

End SplitJoin.

Lemma linebreak_isspace (a : ascii) : is_linebreak a = true -> isspace a = true.
Proof.
  unfold is_linebreak, isspace. cbv zeta.
  destruct (Nat.leb_spec 10 (nat_of_ascii a)), (Nat.leb_spec (nat_of_ascii a) 13),
    (Nat.leb_spec 28 (nat_of_ascii a)), (Nat.leb_spec (nat_of_ascii a) 30),
    (Nat.leb_spec 9 (nat_of_ascii a)), (Nat.leb_spec (nat_of_ascii a) 32);
    cbn; intros Hlb; try discriminate Hlb; try reflexivity; lia.
Qed.

Lemma single_spaced_no_linebreak (b : bool) (s : string) :
  single_spaced b s = true ->
  RefWorld.all_chars (fun a => negb (is_linebreak a)) s = true.
Proof.
  revert b. induction s as [|a s IH]; intros b; [reflexivity|].
  cbn [single_spaced RefWorld.all_chars]. destruct (isspace a) eqn:Hsp.
  - intros [[Ha _]%andb_prop Hs]%andb_prop.
    apply bool_decide_eq_true in Ha. subst a.
    rewrite (IH true Hs). reflexivity.
  - intros Hs. rewrite (IH false Hs), andb_true_r.
    apply negb_true_iff. apply not_true_is_false. intros Hlb.
    apply linebreak_isspace in Hlb. congruence.
Qed.

Lemma all_chars_impl (q q' : ascii -> bool) (s : string) :
  (forall a, q a = true -> q' a = true) ->
  RefWorld.all_chars q s = true -> RefWorld.all_chars q' s = true.
Proof.
  intros Hqq'. induction s as [|a s IH]; [reflexivity|].
  cbn. intros [Ha Hs]%andb_prop. rewrite (Hqq' a Ha), (IH Hs). reflexivity.
Qed.

Lemma bullet_one_line (s : string) :
  RefWorld.all_chars (is_not (ascii_of_nat 10)) (bullet (clean_sentence s)) = true.
Proof.
  unfold bullet. rewrite !all_chars_append.
  rewrite (all_chars_impl (fun a => negb (is_linebreak a)) _ (clean_sentence s)).
  - reflexivity.
  - intros a Ha. unfold is_not. apply negb_true_iff, bool_decide_eq_false.
    intros ->. discriminate.
  - apply (single_spaced_no_linebreak false), single_spaced_strip_by.
Qed.

Lemma summary_sentences_clean (W : World) (text : string) (k : Z)
  (sents : list string) :
  summary_sentences W text k = Ret sents ->
  exists raw, sents = clean_sentence <$> raw.
Proof.
  unfold summary_sentences.
  destruct (truthy text); [|intros [= <-]; exists []; reflexivity].
  destruct (nlp_setup W); [|discriminate]. cbn.
  destruct (pick_sentences W text k) as [picked|e]; [|discriminate]. cbn.
  intros [= <-]. eexists. reflexivity.
Qed.

(** X13: the summary is the bullets of its sentences, one per line: it is
    empty when there is no sentence, and otherwise splitting it at line
    feeds gives back the bullets, in order. *)
Theorem summary_lines (W : World) (text : string) (k : Z) (sents : list string) :
  summary_sentences W text k = Ret sents ->
  exists out,
    summarize_text W text k = Ret out
    /\ (sents = [] -> out = "")
    /\ (sents <> [] ->
        RefWorld.split_all (ascii_of_nat 10) out = bullet <$> sents).
Proof.
  intros H. exists (join LF (bullet <$> sents)).
  split; [apply summarize_text_render, H|].
  split; [intros ->; reflexivity|].
  intros Hne. apply split_all_join.
  - destruct sents; [contradiction | discriminate].
  - destruct (summary_sentences_clean W text k sents H) as [raw ->].
    rewrite Forall_fmap, Forall_fmap. apply Forall_forall.
    intros s _. apply bullet_one_line.
Qed.

Lemma summary_lines_witness :
  exists out,
    summarize_text RefWorld.offline "Premier point. Second point." 4 = Ret out
    /\ RefWorld.split_all (ascii_of_nat 10) out
       = ["- Premier point."; "- Second point."].
Proof.
  destruct (summary_lines RefWorld.offline "Premier point. Second point." 4
              ["Premier point"; "Second point"])
    as (out & Hout & _ & Hlines).
  { vm_compute. reflexivity. }
  exists out. split; [exact Hout|]. apply Hlines. discriminate.
Defined.

(** ** Facts about [get_env_list] *)

Lemma splitlines_cons (c : ascii) (s : string) :
  splitlines (String c s)
  = if is_linebreak c then
      match s with
      | String d s'' =>
          if bool_decide (c = ascii_of_nat 13) && bool_decide (d = ascii_of_nat 10)
          then "" :: splitlines s''
          else "" :: splitlines s
      | EmptyString => [""]
      end
    else
      match splitlines s with
      | line :: lines => String c line :: lines
      | [] => [String c ""]
      end.
Proof. reflexivity. Qed.

(** No line of [splitlines] holds a line break. *)
Lemma splitlines_lines (s : string) :
  Forall (fun line =>
            RefWorld.all_chars (fun a => negb (is_linebreak a)) line = true)
         (splitlines s).
Proof.
  assert (H : Forall (fun line =>
                RefWorld.all_chars (fun a => negb (is_linebreak a)) line = true)
                (splitlines s)
              /\ forall d s'', s = String d s'' ->
                   Forall (fun line =>
                     RefWorld.all_chars (fun a => negb (is_linebreak a)) line = true)
                     (splitlines s'')); [|apply H].
  induction s as [|c s [IH IH']].
  - split; [constructor | discriminate].
  - split; [|intros d s'' [= _ <-]; exact IH].
    rewrite splitlines_cons. destruct (is_linebreak c) eqn:Hc.
    + destruct s as [|d s'']; [repeat constructor|].
      destruct (_ && _); constructor; try reflexivity;
        [apply (IH' d s'' eq_refl) | exact IH].
    + destruct (splitlines s) as [|line lines].
      * repeat constructor. cbn. rewrite Hc. reflexivity.
      * apply Forall_cons in IH as [Hline Hlines].
        constructor; [|exact Hlines]. cbn. rewrite Hc, Hline. reflexivity.
Qed.

Lemma all_chars_part_char (s : string) :
  RefWorld.all_chars (is_not ",") s = true ->
  RefWorld.all_chars (fun a => negb (is_linebreak a)) s = true ->
  RefWorld.all_chars part_char s = true.
Proof.
  induction s as [|a s IH]; [reflexivity|].
  cbn. intros [Ha Hs]%andb_prop [Ha' Hs']%andb_prop.
  rewrite (IH Hs Hs'), andb_true_r. unfold part_char.
  unfold is_not in Ha. rewrite Ha, Ha'. reflexivity.
Qed.

Lemma strip_blank (s : string) :
  RefWorld.all_chars isspace s = true -> strip s = "".
Proof.
  unfold strip, strip_by. induction s as [|a s IH]; [reflexivity|].
  cbn. intros [Ha Hs]%andb_prop. rewrite Ha. apply IH, Hs.
Qed.

(** X14: every feed address read from the environment is a clean token: not
    empty, without leading or trailing whitespace, and without a comma or a
    line break inside; a value of whitespace alone gives no address. *)
Theorem get_env_list_parts (value : string) :
  Forall (fun part =>
            part <> ""
            /\ strip part = part
            /\ RefWorld.all_chars part_char part = true)
         (get_env_list value)
  /\ (RefWorld.all_chars isspace value = true -> get_env_list value = []).
Proof.
  split.
  - unfold get_env_list. destruct (truthy (strip value)); [|constructor].
    rewrite Forall_forall. intros part Hpart.
    apply elem_of_flat_map in Hpart as (chunk & Hchunk & Hpart).
    apply list_elem_of_filter in Hpart as [Hne Hpart].
    apply list_elem_of_fmap in Hpart as (piece & -> & Hpiece).
    pose proof (splitlines_lines (replace_from BACKSLASH_N LF 0 (strip value)))
      as Hlines.
    rewrite Forall_forall in Hlines. specialize (Hlines chunk Hchunk).
    pose proof (split_all_pieces "," _ chunk Hlines) as Hpieces.
    rewrite Forall_forall in Hpieces.
    destruct (Hpieces piece Hpiece) as [Hcomma Hbreak].
    split; [apply truthy_nonempty, Hne|].
    split; [apply strip_by_idem|].
    apply all_chars_part_char; apply all_chars_strip_by; assumption.
  - intros Hblank. unfold get_env_list.
    rewrite (strip_blank value Hblank). reflexivity.
Qed.

Lemma get_env_list_parts_witness :
  get_env_list (String " " (String (ascii_of_nat 10) EmptyString)) = [].
Proof.
  apply (proj2 (get_env_list_parts
                  (String " " (String (ascii_of_nat 10) EmptyString)))).
  reflexivity.
Defined.

(** The forms the module documentation allows: commas, line feeds, and the
    two characters backslash and n. *)
Example get_env_list_mixed :
  get_env_list
    ("https://a.example/feed, https://b.example/feed\nhttps://c.example/feed,"
     +:+ LF +:+ " https://d.example/feed ")
  = ["https://a.example/feed"; "https://b.example/feed";
     "https://c.example/feed"; "https://d.example/feed"].
Proof. vm_compute. reflexivity. Qed.

Section StripFixed.

Context (p : ascii -> bool).

Lemma strip_by_fixed_parts (s : string) :
  strip_by p s = s -> lstrip_by p s = s /\ rstrip_by p s = s.
Proof.
  intros Hs. unfold strip_by in Hs. split.
  - destruct (lstrip_by_head p s) as [E|(c & t & E & Hc)].
    + rewrite E in Hs. cbn in Hs. subst s. reflexivity.
    + rewrite E in Hs. destruct (rstrip_by_keeps_head p c t Hc) as [t' Ht'].
      rewrite Ht' in Hs. subst s. cbn. rewrite Hc. reflexivity.
  - rewrite <- Hs at 1. rewrite rstrip_by_idem. exact Hs.
Qed.

Lemma lstrip_by_append_fixed (s t : string) :
  s <> "" -> lstrip_by p s = s -> lstrip_by p (s +:+ t) = s +:+ t.
Proof.
  destruct s as [|c s]; [contradiction|]. intros _ Hs.
  rewrite append_cons. cbn in *. destruct (p c) eqn:Hc; [|reflexivity].
  exfalso. clear -Hs.
  assert (Hlen : forall u, (String.length (lstrip_by p u) <= String.length u)%nat).
  { induction u as [|d u IH]; cbn; [lia|]. destruct (p d); cbn; lia. }
  specialize (Hlen s). rewrite Hs in Hlen. cbn in Hlen. lia.
Qed.

End StripFixed.

Lemma replace_from_absent (by_ s : string) :
  RefWorld.all_chars (is_not "\") s = true ->
  replace_from BACKSLASH_N by_ 0 s = s.
Proof.
  induction s as [|c s IH]; [reflexivity|].
  cbn [RefWorld.all_chars]. intros [Hc Hs]%andb_prop.
  unfold is_not in Hc. apply negb_true_iff, bool_decide_eq_false in Hc.
  unfold BACKSLASH_N in *. cbn [replace_from String.prefix].
  destruct (ascii_dec "\" c) as [<-|_]; [contradiction|].
  rewrite (IH Hs). reflexivity.
Qed.

Lemma splitlines_one (s : string) :
  s <> "" ->
  RefWorld.all_chars (fun a => negb (is_linebreak a)) s = true ->
  splitlines s = [s].
Proof.
  induction s as [|c s IH]; [contradiction|]. intros _.
  cbn [RefWorld.all_chars]. intros [Hc Hs]%andb_prop.
  apply negb_true_iff in Hc. rewrite splitlines_cons, Hc.
  destruct s as [|d s]; [reflexivity|].
  rewrite IH by (discriminate || exact Hs). reflexivity.
Qed.

Lemma all_chars_join (q : ascii -> bool) (sep : string) (parts : list string) :
  RefWorld.all_chars q sep = true ->
  Forall (fun part => RefWorld.all_chars q part = true) parts ->
  RefWorld.all_chars q (join sep parts) = true.
Proof.
  intros Hsep. induction 1 as [|part parts Hp _ IH]; [reflexivity|].
  destruct parts as [|part' parts]; [exact Hp|].
  change (join sep (part :: part' :: parts))
    with (part +:+ sep +:+ join sep (part' :: parts)).
  rewrite !all_chars_append, Hp, Hsep, IH. reflexivity.
Qed.

Lemma join_strip_fixed (sep : string) (parts : list string) :
  Forall (fun part => part <> "" /\ strip part = part) parts ->
  strip (join sep parts) = join sep parts.
Proof.
  intros Hall. unfold strip, strip_by.
  assert (Hl : lstrip_by isspace (join sep parts) = join sep parts).
  { destruct Hall as [|part parts [Hne Hp] _]; [reflexivity|].
    destruct parts as [|part' parts];
      [apply (strip_by_fixed_parts isspace), Hp|].
    change (join sep (part :: part' :: parts))
      with (part +:+ sep +:+ join sep (part' :: parts)).
    apply lstrip_by_append_fixed;
      [exact Hne | apply (strip_by_fixed_parts isspace), Hp]. }
  rewrite Hl. clear Hl.
  induction Hall as [|part parts [Hne Hp] Hall IH]; [reflexivity|].
  destruct parts as [|part' parts];
    [apply (strip_by_fixed_parts isspace), Hp|].
  change (join sep (part :: part' :: parts))
    with (part +:+ sep +:+ join sep (part' :: parts)).
  rewrite <- append_assoc. apply rstrip_by_append_fixed; [|exact IH].
  clear -Hall. apply Forall_cons in Hall as [[Hne _] _].
  destruct parts as [|q parts]; [exact Hne|].
  change (join sep (part' :: q :: parts))
    with (part' +:+ sep +:+ join sep (q :: parts)).
  destruct part'; [contradiction | discriminate].
Qed.

(** X15: a list of clean ASCII addresses (not empty, stripped, without
    comma, line break or backslash, every character below 128) joined by
    commas is read back from the environment as that same list. *)
Theorem get_env_list_join (parts : list string) :
  Forall (fun part =>
            part <> ""
            /\ strip part = part
            /\ RefWorld.all_chars part_char part = true
            /\ RefWorld.all_chars (is_not "\") part = true
            /\ RefWorld.all_chars is_ascii part = true)
         parts ->
  get_env_list (join "," parts) = parts.
Proof.
  intros Hall.
  destruct parts as [|part0 parts0]; [reflexivity|].
  remember (part0 :: parts0) as parts eqn:Eparts.
  assert (Hne : parts <> []) by (subst; discriminate).
  assert (Hstrip : strip (join "," parts) = join "," parts).
  { apply join_strip_fixed. eapply Forall_impl; [exact Hall|]. cbn. tauto. }
  assert (Hcomma : Forall (fun part => RefWorld.all_chars (is_not ",") part = true)
                          parts).
  { eapply Forall_impl; [exact Hall|]. cbn. intros part (_ & _ & Hp & _).
    eapply all_chars_impl; [|exact Hp].
    intros a Ha. unfold part_char in Ha. apply andb_prop in Ha as [Ha _].
    exact Ha. }
  assert (Hbreak : RefWorld.all_chars (fun a => negb (is_linebreak a))
                     (join "," parts) = true).
  { apply all_chars_join; [reflexivity|].
    eapply Forall_impl; [exact Hall|]. cbn. intros part (_ & _ & Hp & _).
    eapply all_chars_impl; [|exact Hp].
    intros a Ha. unfold part_char in Ha. apply andb_prop in Ha as [_ Ha].
    exact Ha. }
  assert (Hback : RefWorld.all_chars (is_not "\") (join "," parts) = true).
  { apply all_chars_join; [reflexivity|].
    eapply Forall_impl; [exact Hall|]. cbn. tauto. }
  assert (Hjoin : join "," parts <> "").
  { subst parts. apply Forall_cons in Hall as [(Hp & _) _].
    destruct parts0 as [|q parts0]; [exact Hp|].
    change (join "," (part0 :: q :: parts0))
      with (part0 +:+ "," +:+ join "," (q :: parts0)).
    destruct part0; [contradiction | discriminate]. }
  unfold get_env_list. rewrite Hstrip.
  rewrite (proj2 (truthy_nonempty _) Hjoin).
  rewrite (replace_from_absent _ _ Hback), (splitlines_one _ Hjoin Hbreak).
  cbn [flat_map]. rewrite app_nil_r.
  rewrite (split_all_join "," parts Hne Hcomma).
  assert (Hfix : strip <$> parts = parts).
  { clear -Hall. induction Hall as [|part parts (_ & Hp & _) _ IH];
      [reflexivity|]. rewrite fmap_cons, Hp, IH. reflexivity. }
  rewrite Hfix. apply filter_all.
  eapply Forall_impl; [exact Hall|]. cbn. intros part (Hp & _).
  apply truthy_nonempty, Hp.
Qed.

Lemma get_env_list_join_witness :
  get_env_list (join "," ["https://a.example/feed"; "https://b.example/feed"])
  = ["https://a.example/feed"; "https://b.example/feed"].
Proof.
  apply (get_env_list_join ["https://a.example/feed"; "https://b.example/feed"]).
  repeat constructor; (discriminate || reflexivity).
Defined.

(** ** Facts about the fetcher, the identifier and the reports *)



Lemma substring_length (n : nat) (s : string) :
  String.length (String.substring 0 n s) = Nat.min n (String.length s).
Proof.
  revert s. induction n as [|n IH]; intros [|c s]; cbn; try reflexivity.
  rewrite IH. reflexivity.
Qed.

Lemma substring_prefix (n : nat) (s : string) :
  String.prefix (String.substring 0 n s) s = true.
Proof.
  revert s. induction n as [|n IH]; intros [|c s]; cbn; try reflexivity.
  destruct (ascii_dec c c); [apply IH | contradiction].
Qed.

(** X17: a uid is the head of the digest of the link: at most ten
    characters, exactly ten as soon as the digest has ten. *)
Theorem hash_id_length (W : World) (s : string) :
  String.prefix (hash_id W s) (sha1_hexdigest W s) = true
  /\ (String.length (hash_id W s) <= 10)%nat
  /\ ((10 <= String.length (sha1_hexdigest W s))%nat ->
      String.length (hash_id W s) = 10%nat).
Proof.
  unfold hash_id. split; [apply substring_prefix|].
  rewrite substring_length. split; lia.
Qed.

Lemma hash_id_length_witness :
  String.length (hash_id RefWorld.offline "https://example.com/a") = 10%nat.
Proof.
  apply (proj2 (proj2 (hash_id_length RefWorld.offline "https://example.com/a"))).
  cbn. lia.
Defined.

Lemma join_ends_with (sep suffix : string) (parts : list string) :
  parts <> [] ->
  Forall (fun part => exists body, part = body +:+ suffix) parts ->
  exists body, join sep parts = body +:+ suffix.
Proof.
  intros Hne Hall. induction Hall as [|part parts Hp Hall IH]; [contradiction|].
  destruct parts as [|q parts]; [exact Hp|].
  destruct IH as [body Hbody]; [discriminate|].
  change (join sep (part :: q :: parts))
    with (part +:+ sep +:+ join sep (q :: parts)).
  rewrite Hbody. exists (part +:+ sep +:+ body).
  rewrite !append_assoc. reflexivity.
Qed.

Lemma report_entry_ends (r : HistoryEntry) :
  exists body, report_entry r = body +:+ LF.
Proof.
  unfold report_entry. eexists.
  rewrite <- !append_assoc. reflexivity.
Qed.

(** X18: every report starts with its title as a first-level heading
    followed by an empty line, and ends with a line feed, whether it lists
    entries or none. *)
Theorem make_md_frame (res : list HistoryEntry) (title : string) :
  (exists rest, make_md res title = "# " +:+ title +:+ LF +:+ LF +:+ rest)
  /\ (exists body, make_md res title = body +:+ LF).
Proof.
  unfold make_md. destruct res as [|r res].
  - split; eexists; [rewrite !append_assoc | rewrite <- !append_assoc];
      reflexivity.
  - split.
    + exists (LF +:+ join LF (report_entry <$> r :: res)).
      change (join LF (("# " +:+ title +:+ LF +:+ LF) :: (report_entry <$> r :: res)))
        with (("# " +:+ title +:+ LF +:+ LF) +:+ LF
              +:+ join LF (report_entry <$> r :: res)).
      rewrite !append_assoc. reflexivity.
    + apply join_ends_with; [discriminate|].
      constructor.
      * eexists. rewrite <- !append_assoc. reflexivity.
      * rewrite Forall_fmap. apply Forall_forall.
        intros r' _. apply report_entry_ends.
Qed.

(** X19: the summary a report shows for an entry is never empty and has no
    surrounding whitespace: a blank summary is replaced by the marker. *)
Theorem report_summary_nonblank (summary : string) :
  report_summary summary <> ""
  /\ strip (report_summary summary) = report_summary summary
  /\ (strip summary = "" -> report_summary summary = "- (Résumé indisponible).").
Proof.
  unfold report_summary, or_.
  destruct (strip summary) as [|c t] eqn:E; cbn [truthy].
  - split; [discriminate|]. split; [vm_compute|]; reflexivity.
  - split; [discriminate|]. split; [|discriminate].
    rewrite <- E. apply strip_by_idem.
Qed.

Lemma report_summary_nonblank_witness :
  report_summary "   " = "- (Résumé indisponible).".
Proof.
  apply (proj2 (proj2 (report_summary_nonblank "   "))). reflexivity.
Defined.
